(** * Entity / component storage and query maintenance of arancini-core

    The development embeds [packages/arancini-core/src/entity.ts] (class
    [Entity]: [add], [get], [getAll], [find], [has], [remove], [destroy]) and
    the collaborators it calls ([BitSet], the component registry, the space
    manager and the query manager).  The collaborators are not part of the
    sources at hand; they are modelled from the written specification and
    every such definition says so in its documentation. *)

From Stdlib Require Import NArith.
From stdpp Require Import gmap strings list fin_maps.

Local Open Scope nat_scope.

(** ** BitSet *)

Module BitSet.

(** Modelled from the spec: [utils/bit-set] is missing; a BitSet is an
    ordered sequence of fixed-width words representing a set of component
    type indices. *)
Definition bitsPerWord : nat := 32.

(** Modelled from the spec: [utils/bit-set] is missing; the word that holds
    an index and the position of the index inside that word. *)
Definition wordIndex (i : nat) : nat := i / bitsPerWord.
Definition bitIndex (i : nat) : N := N.of_nat (i mod bitsPerWord).

(** Modelled from the spec: [utils/bit-set] is missing; reading a word past
    the end yields zero (the shorter operand is treated as zero-padded). *)
Definition word (b : list N) (k : nat) : N := default 0%N (b !! k).

(** Modelled from the spec: [utils/bit-set] is missing; a new BitSet has
    no bit set. *)
Definition empty : list N := [].

(** Modelled from the spec: [utils/bit-set] is missing; growth allocates
    additional words and zero-fills them, and never shrinks. *)
Definition grow (n : nat) (b : list N) : list N :=
  b ++ replicate (n - length b) 0%N.

(** Modelled from the spec: [utils/bit-set] is missing; [test(index)]. *)
Definition test (i : nat) (b : list N) : bool :=
  N.testbit (word b (wordIndex i)) (bitIndex i).

(** Modelled from the spec: [utils/bit-set] is missing; [set(index)] grows
    the storage when the index is beyond the current capacity. *)
Definition set (i : nat) (b : list N) : list N :=
  let b' := grow (S (wordIndex i)) b in
  <[wordIndex i := N.setbit (word b' (wordIndex i)) (bitIndex i)]> b'.

(** Modelled from the spec: [utils/bit-set] is missing; [clear(index)]
    never changes the capacity, so a bit beyond it is left alone (it reads
    as zero already). *)
Definition clear (i : nat) (b : list N) : list N :=
  <[wordIndex i := N.clearbit (word b (wordIndex i)) (bitIndex i)]> b.

(** Modelled from the spec: [utils/bit-set] is missing; [isEmpty()]. *)
Definition isEmpty (b : list N) : bool := forallb (N.eqb 0%N) b.

(** Modelled from the spec: [utils/bit-set] is missing; [isSubsetOf(other)]:
    every set bit in self is set in other. *)
Definition isSubsetOf (self other : list N) : bool :=
  forallb (fun k => N.eqb (N.land (word self k) (word other k)) (word self k))
          (seq 0 (length self)).

(** Modelled from the spec: [utils/bit-set] is missing;
    [intersects(other)]. *)
Definition intersects (self other : list N) : bool :=
  existsb (fun k => negb (N.eqb (N.land (word self k) (word other k)) 0%N))
          (seq 0 (length self)).

(** Modelled from the spec: [utils/bit-set] is missing; [containsAll],
    [containsAny] and [containsNone] of a mask. *)
Definition containsAll (self mask : list N) : bool := isSubsetOf mask self.
Definition containsAny (self mask : list N) : bool := intersects self mask.
Definition containsNone (self mask : list N) : bool := negb (intersects self mask).

(** Modelled from the spec: [utils/bit-set] is missing; the BitSet with
    exactly the given indices set (used to compile query masks). *)
Definition ofIndices (l : list nat) : list N := foldr set empty l.

(** Modelled from the spec: [utils/bit-set] is missing; the words have a
    fixed width: every word of a well-formed BitSet fits [bitsPerWord]
    bits. *)
Definition wf (b : list N) : Prop :=
  Forall (fun x => (x < 2 ^ N.of_nat bitsPerWord)%N) b.

End BitSet.

(** ** Data model *)

(** A component class is identified by its name; an entity, a space and a
    component instance by the number they were allocated under. *)

(** Modelled from the spec: [component] is missing; a component instance
    knows its class ([_class], read by [Entity.remove]), carries a
    back-reference to its owning entity and is constructed from the
    caller's arguments; [instanceId] is the identity of the object. *)
Record Component := mkComponent {
  _class : string;
  instanceId : nat;
  entity : nat;
  constructArgs : list Z;
}.

#[global] Instance Component_eq_dec : EqDecision Component.
Proof. solve_decision. Defined.

(** [class Entity], its fields in the order of [entity.ts].  [space] and
    [world] are declared [space!: Space] and [world!: World]: they hold
    [undefined] until something assigns them.  The event system of an entity
    is not part of the model. *)
Record Entity := mkEntity {
  id : nat;
  initialised : bool;
  space : option nat;
  world : option unit;
  _componentsBitSet : list N;
  _components : gmap nat Component;
}.

(** Modelled from the spec: the query manager is missing; a query descriptor
    is compiled once into three BitSets. *)
Record QueryMasks := mkQueryMasks {
  requiredMask : list N;
  anyMask : list N;
  excludedMask : list N;
}.

#[global] Instance QueryMasks_eq_dec : EqDecision QueryMasks.
Proof. solve_decision. Defined.

(** Modelled from the spec: the query manager is missing; a registered query
    is its compiled masks and its live result set. *)
Record Query := mkQuery {
  masks : QueryMasks;
  results : gset nat;
}.

(** Modelled from the spec: the query manager is missing; a declarative
    condition over component types. *)
Record QueryDescriptor := mkQueryDescriptor {
  required : list string;
  any : list string;
  excluded : list string;
}.

(** Modelled from the spec: the query manager is missing; the events marking
    an entity entering or leaving the result set of a query. *)
Inductive Notification :=
| Qualify (e : nat) (q : QueryMasks)
| Disqualify (e : nat) (q : QueryMasks).

#[global] Instance Notification_eq_dec : EqDecision Notification.
Proof. solve_decision. Defined.

(** The state a program over one [World] can observe: the component
    registry ([componentIndices], [nextIndex]), the entity objects
    ([heap], keyed by reference; an entity object outlives its destruction),
    the counters behind [uniqueId()] and object allocation, the spaces with
    their entity collections, and the query manager ([queries] and the
    [notifications] it has emitted so far, oldest first). *)
Record World := mkWorld {
  componentIndices : gmap string nat;
  nextIndex : nat;
  heap : gmap nat Entity;
  nextId : nat;
  nextInstance : nat;
  spaces : gmap nat (gset nat);
  nextSpace : nat;
  queries : list Query;
  notifications : list Notification;
}.

Definition withRegistry (r : gmap string nat) (n : nat) (w : World) : World :=
  mkWorld r n (heap w) (nextId w) (nextInstance w) (spaces w) (nextSpace w)
          (queries w) (notifications w).

Definition withHeap (h : gmap nat Entity) (w : World) : World :=
  mkWorld (componentIndices w) (nextIndex w) h (nextId w) (nextInstance w)
          (spaces w) (nextSpace w) (queries w) (notifications w).

Definition withNextId (n : nat) (w : World) : World :=
  mkWorld (componentIndices w) (nextIndex w) (heap w) n (nextInstance w)
          (spaces w) (nextSpace w) (queries w) (notifications w).

Definition withNextInstance (n : nat) (w : World) : World :=
  mkWorld (componentIndices w) (nextIndex w) (heap w) (nextId w) n
          (spaces w) (nextSpace w) (queries w) (notifications w).

Definition withSpaces (s : gmap nat (gset nat)) (n : nat) (w : World) : World :=
  mkWorld (componentIndices w) (nextIndex w) (heap w) (nextId w)
          (nextInstance w) s n (queries w) (notifications w).

Definition withQueries (qs : list Query) (ns : list Notification) (w : World) : World :=
  mkWorld (componentIndices w) (nextIndex w) (heap w) (nextId w)
          (nextInstance w) (spaces w) (nextSpace w) qs ns.

(** ** Exceptions and the state monad of method calls *)

(** One constructor per [throw] of [entity.ts], and [TypeError] for a
    property read on [undefined] (as in [this.world.spaceManager] on an
    entity without a world). *)
Inductive Error :=
| CannotAddComponent (clazz : string) (entityId : nat)
| ComponentNotInEntity (clazz : string) (entityId : nat)
| ComponentInstanceDoesNotExist
| ComponentDoesNotExist
| TypeError.

(** The error kinds of the specification. *)
Inductive ErrorKind :=
| DuplicateComponentError
| ComponentNotFoundError
| OtherError.

Definition errorKind (err : Error) : ErrorKind :=
  match err with
  | CannotAddComponent _ _ => DuplicateComponentError
  | ComponentNotInEntity _ _ => ComponentNotFoundError
  | ComponentInstanceDoesNotExist => ComponentNotFoundError
  | ComponentDoesNotExist => ComponentNotFoundError
  | TypeError => OtherError
  end.

(** A method call runs on a world and either returns or throws; the world
    it leaves behind is the one at the point of the return or the throw. *)
Definition M (A : Type) : Type := World -> (Error + A) * World.

#[global] Instance M_ret : MRet M := fun A a w => (inr a, w).

#[global] Instance M_bind : MBind M := fun A B k m w =>
  match m w with
  | (inl err, w') => (inl err, w')
  | (inr a, w') => k a w'
  end.

Definition throw {A} (err : Error) : M A := fun w => (inl err, w).

Definition gets {A} (f : World -> A) : M A := fun w => (inr (f w), w).

Definition modify (f : World -> World) : M unit := fun w => (inr tt, f w).

Definition call {A} (f : World -> A * World) : M A :=
  fun w => (inr (f w).1, (f w).2).

(** An object reference is dereferenced on the heap; a reference that
    denotes no object behaves like [undefined]. *)
Definition deref (this : nat) : M Entity := fun w =>
  match heap w !! this with
  | Some e => (inr e, w)
  | None => (inl TypeError, w)
  end.

(** JavaScript truthiness and definedness of a property that holds an
    object or [undefined]. *)
Definition truthy {A} (v : option A) : bool :=
  match v with Some _ => true | None => false end.

Definition defined {A} (v : option A) : bool :=
  match v with Some _ => true | None => false end.

(** [this._components[index]], where the index is [undefined] for a class
    that has none. *)
Definition componentAt (e : Entity) (index : option nat) : option Component :=
  index ≫= fun i => _components e !! i.

(** ** Component registry *)

Module ComponentRegistry.

(** [clazz.componentIndex]: [undefined] until the class is registered. *)
Definition componentIndex (clazz : string) (w : World) : option nat :=
  componentIndices w !! clazz.

(** Modelled from the spec: the component registry is missing;
    [registerType] assigns a stable, monotonically increasing integer index
    to each component type on first registration and returns the same index
    when the type is registered again. *)
Definition registerType (type : string) (w : World) : nat * World :=
  match componentIndices w !! type with
  | Some i => (i, w)
  | None =>
      (nextIndex w,
       withRegistry (<[type := nextIndex w]> (componentIndices w))
                    (S (nextIndex w)) w)
  end.

(** Modelled from the spec: the component registry is missing; the indices
    of a list of types, each registered if unseen. *)
Fixpoint registerTypes (types : list string) (w : World) : list nat * World :=
  match types with
  | [] => ([], w)
  | t :: ts =>
      let r := registerType t w in
      let rs := registerTypes ts r.2 in
      (r.1 :: rs.1, rs.2)
  end.

End ComponentRegistry.

(** ** Query manager *)

Module QueryManager.

(** Modelled from the spec: the query manager is missing; the matching rule
    [containsAll(required) AND (any.isEmpty() OR containsAny(any)) AND
    containsNone(excluded)]. *)
Definition matches (bitset : list N) (q : QueryMasks) : bool :=
  BitSet.containsAll bitset (requiredMask q)
  && (BitSet.isEmpty (anyMask q) || BitSet.containsAny bitset (anyMask q))
  && BitSet.containsNone bitset (excludedMask q).

(** Modelled from the spec: the query manager is missing; re-evaluation of
    one entity against one query: insert and qualify when it matches now and
    was not in the result set, remove and disqualify when it was and matches
    no longer, nothing otherwise. *)
Definition evaluate (e : nat) (bitset : list N) (q : Query)
  : Query * list Notification :=
  let now := matches bitset (masks q) in
  let was := bool_decide (e ∈ results q) in
  if now && negb was then
    (mkQuery (masks q) ({[e]} ∪ results q), [Qualify e (masks q)])
  else if negb now && was then
    (mkQuery (masks q) (results q ∖ {[e]}), [Disqualify e (masks q)])
  else (q, []).

(** Modelled from the spec: the query manager is missing; on a signature
    change the entity is re-evaluated against every registered query. *)
Definition onEntityComponentChange (e : nat) (w : World) : World :=
  match heap w !! e with
  | Some o =>
      let rs := evaluate e (_componentsBitSet o) <$> queries w in
      withQueries (rs.*1) (notifications w ++ concat (rs.*2)) w
  | None => w
  end.

(** Modelled from the spec: the query manager is missing; full
    deregistration of a destroyed entity from one query. *)
Definition deregister (e : nat) (q : Query) : Query * list Notification :=
  if bool_decide (e ∈ results q) then
    (mkQuery (masks q) (results q ∖ {[e]}), [Disqualify e (masks q)])
  else (q, []).

(** Modelled from the spec: the query manager is missing; a destroyed entity
    leaves every result set. *)
Definition onEntityRemoved (e : nat) (w : World) : World :=
  let rs := deregister e <$> queries w in
  withQueries (rs.*1) (notifications w ++ concat (rs.*2)) w.

(** Modelled from the spec: the query manager is missing; compilation of a
    descriptor into its three masks over the indices of the registry. *)
Definition compile (d : QueryDescriptor) (w : World) : QueryMasks * World :=
  let r := ComponentRegistry.registerTypes (required d) w in
  let a := ComponentRegistry.registerTypes (any d) r.2 in
  let x := ComponentRegistry.registerTypes (excluded d) a.2 in
  (mkQueryMasks (BitSet.ofIndices r.1) (BitSet.ofIndices a.1)
                (BitSet.ofIndices x.1), x.2).

End QueryManager.

(** Modelled from the spec: the space is missing; the live entities of a
    world are those in the collection of one of its spaces. *)
Definition liveEntities (w : World) : gset nat :=
  ⋃ ((map_to_list (spaces w)).*2).

(** Whether the entity behind a reference matches the masks of a query. *)
Definition entityMatches (w : World) (e : nat) (q : QueryMasks) : bool :=
  match heap w !! e with
  | Some o => QueryManager.matches (_componentsBitSet o) q
  | None => false
  end.

(** Modelled from the spec: the query manager is missing; registration
    deduplicates by structural equality of the compiled masks and otherwise
    seeds the result set with one scan over the live entities, silently. *)
Definition registerQuery (d : QueryDescriptor) (w : World) : QueryMasks * World :=
  let c := QueryManager.compile d w in
  if bool_decide (c.1 ∈ masks <$> queries c.2) then c
  else
    let seed := filter (fun e => entityMatches c.2 e c.1 = true)
                       (liveEntities c.2) in
    (c.1, withQueries (queries c.2 ++ [mkQuery c.1 seed])
                      (notifications c.2) c.2).

(** ** Space manager *)

(** Modelled from the spec: the space manager is missing; a component is
    stored in the component map and its bit is set. *)
Definition attach (ix : nat) (c : Component) (o : Entity) : Entity :=
  mkEntity (id o) (initialised o) (space o) (world o)
           (BitSet.set ix (_componentsBitSet o)) (<[ix := c]> (_components o)).

(** Modelled from the spec: the space manager is missing; a component is
    removed from the component map and its bit is cleared. *)
Definition detach (ix : nat) (o : Entity) : Entity :=
  mkEntity (id o) (initialised o) (space o) (world o)
           (BitSet.clear ix (_componentsBitSet o)) (delete ix (_components o)).

(** Modelled from the spec: the space is missing; an entity created by a
    space refers to the space and to the world. *)
Definition place (s : nat) (o : Entity) : Entity :=
  mkEntity (id o) (initialised o) (Some s) (Some tt)
           (_componentsBitSet o) (_components o).

(** Modelled from the spec: the space manager is missing; a destroyed
    entity has no owning space or world. *)
Definition orphan (o : Entity) : Entity :=
  mkEntity (id o) (initialised o) None None
           (_componentsBitSet o) (_components o).

(** Modelled from the spec: the space is missing; the [initialised] flag is
    set once the entity has completed construction inside a space. *)
Definition initialise (o : Entity) : Entity :=
  mkEntity (id o) true (space o) (world o)
           (_componentsBitSet o) (_components o).

(** [Object.values(this._components)]. *)
Definition values (o : Entity) : list Component :=
  (map_to_list (_components o)).*2.

Module SpaceManager.

(** Modelled from the spec: the space manager is missing;
    [addComponentToEntity] registers the type if unseen, constructs the
    component from the caller's arguments, stores it in the component map
    and sets the bit.  The construction pass of an entity ends inside
    [Space.createEntity], which sets [initialised]; no flag is left to set
    here. *)
Definition addComponentToEntity (e : nat) (clazz : string) (args : list Z)
    (w : World) : Component * World :=
  let r := ComponentRegistry.registerType clazz w in
  let component := mkComponent clazz (nextInstance r.2) e args in
  (component,
   withNextInstance (S (nextInstance r.2))
     (withHeap (alter (attach r.1 component) e (heap r.2)) r.2)).

(** Modelled from the spec: the space manager is missing;
    [removeComponentFromEntity] removes the component from the map under the
    index of its class and clears its bit. *)
Definition removeComponentFromEntity (e : nat) (component : Component)
    (w : World) : World :=
  match ComponentRegistry.componentIndex (_class component) w with
  | Some ix => withHeap (alter (detach ix) e (heap w)) w
  | None => w
  end.

(** Modelled from the spec: the space manager is missing; the end of
    [destroyEntity]: the entity is removed from the collection of its space,
    full deregistration is reported to the query manager, and the entity is
    left without owning space or world. *)
Definition leave (e s : nat) (w : World) : World :=
  let w2 := withSpaces (alter (fun es => es ∖ {[e]}) s (spaces w)) (nextSpace w) w in
  let w3 := QueryManager.onEntityRemoved e w2 in
  withHeap (alter orphan e (heap w3)) w3.

(** Modelled from the spec: the space manager is missing; [destroyEntity]
    removes and destroys all attached components, then removes the entity
    from its space and reports full deregistration to the query manager. *)
Definition destroyEntity (e : nat) (s : nat) (w : World) : World :=
  match heap w !! e with
  | Some o => leave e s (foldr (removeComponentFromEntity e) w (values o))
  | None => w
  end.

End SpaceManager.

(** ** Entity *)

Module Entity.

(** [new Entity()]: the field initialisers of the class; [uniqueId()] is
    modelled from the spec as a counter (ids are process-unique), and the
    object is allocated under its id. *)
Definition new (w : World) : nat * World :=
  let this := nextId w in
  (this,
   withNextId (S this)
     (withHeap (<[this := mkEntity this false None None BitSet.empty ∅]> (heap w)) w)).

(** [this.world.spaceManager] and [this.world.queryManager]: a property
    read on [this.world]. *)
Definition theWorld (o : Entity) : M unit :=
  match world o with
  | Some _ => mret tt
  | None => throw TypeError
  end.

(** [add(clazz, ...args)] *)
Definition add (this : nat) (clazz : string) (args : list Z) : M Component :=
  o ← deref this;
  ix ← gets (ComponentRegistry.componentIndex clazz);
  if truthy (componentAt o ix) then throw (CannotAddComponent clazz (id o))
  else
    theWorld o;;
    component ← call (SpaceManager.addComponentToEntity this clazz args);
    modify (QueryManager.onEntityComponentChange this);;
    mret component.

(** [get(value)] *)
Definition get (this : nat) (value : string) : M Component :=
  o ← deref this;
  ix ← gets (ComponentRegistry.componentIndex value);
  match componentAt o ix with
  | Some component => mret component
  | None => throw (ComponentNotInEntity value (id o))
  end.

(** [getAll()] *)
Definition getAll (this : nat) : M (list Component) :=
  o ← deref this;
  mret (values o).

(** [find(value)] *)
Definition find (this : nat) (value : string) : M (option Component) :=
  o ← deref this;
  ix ← gets (ComponentRegistry.componentIndex value);
  mret (componentAt o ix).

(** [has(value)] *)
Definition has (this : nat) (value : string) : M bool :=
  o ← deref this;
  ix ← gets (ComponentRegistry.componentIndex value);
  mret (defined (componentAt o ix)).

(** The argument of [remove]: a component instance ([value instanceof
    Component]) or a component class. *)
Inductive ComponentOrClass :=
| Instance (v : Component)
| Class (clazz : string).

(** [remove(value)] *)
Definition remove (this : nat) (value : ComponentOrClass) : M nat :=
  o ← deref this;
  component ←
    match value with
    | Instance v =>
        ix ← gets (ComponentRegistry.componentIndex (_class v));
        if negb (truthy (componentAt o ix))
        then throw ComponentInstanceDoesNotExist
        else mret v
    | Class clazz =>
        component ← find this clazz;
        match component with
        | None => throw ComponentDoesNotExist
        | Some c => mret c
        end
    end;
  theWorld o;;
  modify (SpaceManager.removeComponentFromEntity this component);;
  modify (QueryManager.onEntityComponentChange this);;
  mret this.

(** [destroy()]; the space of an entity belongs to the one world of the
    model, whose space manager [this.space.world.spaceManager] is. *)
Definition destroy (this : nat) : M unit :=
  o ← deref this;
  match space o, world o with
  | Some s, Some _ => modify (SpaceManager.destroyEntity this s)
  | _, _ => mret tt
  end.

End Entity.

(** ** Space and World *)

Module Space.

(** Modelled from the spec: the space is missing; a new entity enters the
    collection [es] of the space [s] and refers to the space and the
    world. *)
Definition enter (n s : nat) (es : gset nat) (w : World) : World :=
  let w1 := withHeap (alter (place s) n (heap w)) w in
  withSpaces (<[s := {[n]} ∪ es]> (spaces w1)) (nextSpace w1) w1.

(** Modelled from the spec: the space is missing; [createEntity] allocates
    the entity with an empty bitset inside the space, registers it with the
    query manager and marks it initialised once its construction inside the
    space is complete. *)
Definition createEntity (s : nat) : M nat := fun w =>
  match spaces w !! s with
  | Some es =>
      let n := Entity.new w in
      let w3 := QueryManager.onEntityComponentChange n.1 (enter n.1 s es n.2) in
      (inr n.1, withHeap (alter initialise n.1 (heap w3)) w3)
  | None => (inl TypeError, w)
  end.

End Space.

Module World.

(** [new World()]: nothing registered, no space, no entity. *)
Definition new : World := mkWorld ∅ 0 ∅ 0 0 ∅ 0 [] [].

(** Modelled from the spec: the world is missing; [registerComponent]
    registers the type with the registry of the world. *)
Definition registerComponent (type : string) : M nat :=
  call (ComponentRegistry.registerType type).

(** Modelled from the spec: the world is missing; [registerQuery]. *)
Definition registerQuery (d : QueryDescriptor) : M QueryMasks :=
  call (registerQuery d).

(** Modelled from the spec: the world is missing; a new, empty space owned
    by the world. *)
Definition createSpace : M nat := fun w =>
  (inr (nextSpace w),
   withSpaces (<[nextSpace w := ∅]> (spaces w)) (S (nextSpace w)) w).

End World.

(** ** Call sequences *)

(** The mutating calls of the interface; [NewEntity] is [new Entity()],
    which makes an entity that no space owns. *)
Inductive Call :=
| RegisterComponent (type : string)
| RegisterQuery (d : QueryDescriptor)
| CreateSpace
| CreateEntity (s : nat)
| NewEntity
| Add (e : nat) (clazz : string) (args : list Z)
| Remove (e : nat) (value : Entity.ComponentOrClass)
| Destroy (e : nat).

(** The world a call leaves behind, whether it returned or threw. *)
Definition exec (c : Call) (w : World) : World :=
  match c with
  | RegisterComponent type => (World.registerComponent type w).2
  | RegisterQuery d => (World.registerQuery d w).2
  | CreateSpace => (World.createSpace w).2
  | CreateEntity s => (Space.createEntity s w).2
  | NewEntity => (Entity.new w).2
  | Add e clazz args => (Entity.add e clazz args w).2
  | Remove e value => (Entity.remove e value w).2
  | Destroy e => (Entity.destroy e w).2
  end.

Definition run (cs : list Call) (w : World) : World :=
  foldl (fun w c => exec c w) w cs.

(** The worlds a program can observe between two calls. *)
Inductive reachable : World -> Prop :=
| reachable_new : reachable World.new
| reachable_exec c w : reachable w -> reachable (exec c w).

(** The notifications emitted between two worlds of one call sequence. *)
Definition emitted (w w' : World) : list Notification :=
  drop (length (notifications w)) (notifications w').

Definition occurrences (n : Notification) (ns : list Notification) : nat :=
  length (filter (fun m => m = n) ns).

(** Whether an entity is live and matches a query. *)
Definition liveMatch (w : World) (e : nat) (q : QueryMasks) : bool :=
  bool_decide (e ∈ liveEntities w) && entityMatches w e q.

(** The component [remove] settles on, or the error of its guard. *)
Definition removeTarget (w : World) (o : Entity) (value : Entity.ComponentOrClass)
  : Error + Component :=
  match value with
  | Entity.Instance v =>
      if truthy (componentAt o (ComponentRegistry.componentIndex (_class v) w))
      then inr v else inl ComponentInstanceDoesNotExist
  | Entity.Class clazz =>
      match componentAt o (ComponentRegistry.componentIndex clazz w) with
      | Some c => inr c
      | None => inl ComponentDoesNotExist
      end
  end.

(** ** Invariants of the worlds a program can reach *)

(** An entity is live when the collection of some space holds it. *)
Definition live (w : World) (e : nat) : Prop :=
  exists s es, spaces w !! s = Some es /\ e ∈ es.

(** The bitset of an entity object is well formed and agrees with its
    component map. *)
Definition BitsAgree (o : Entity) : Prop :=
  BitSet.wf (_componentsBitSet o)
  /\ forall i, BitSet.test i (_componentsBitSet o)
               = bool_decide (is_Some (_components o !! i)).

(** The compiled masks of a query are well formed. *)
Definition MasksWf (q : QueryMasks) : Prop :=
  BitSet.wf (requiredMask q) /\ BitSet.wf (anyMask q)
  /\ BitSet.wf (excludedMask q).

(** Entity storage: bitsets agree with component maps, the members of a
    space are entity objects that point back to it and to the world, an
    entity that has a world is a member of its space, and the counters are
    ahead of everything allocated. *)
Record StorageInv (w : World) : Prop := mkStorageInv {
  storage_bits : forall e o, heap w !! e = Some o -> BitsAgree o;
  storage_member : forall s es e,
    spaces w !! s = Some es -> e ∈ es ->
    exists o, heap w !! e = Some o /\ space o = Some s /\ world o = Some tt;
  storage_world : forall e o,
    heap w !! e = Some o -> world o = Some tt ->
    exists s es, space o = Some s /\ spaces w !! s = Some es /\ e ∈ es;
  storage_fresh : forall e, is_Some (heap w !! e) -> e < nextId w;
  storage_fresh_space : forall s, is_Some (spaces w !! s) -> s < nextSpace w;
}.

(** The registry: indices are below the counter and no two types share
    one. *)
Record RegistryInv (w : World) : Prop := mkRegistryInv {
  registry_bound : forall t i, componentIndices w !! t = Some i -> i < nextIndex w;
  registry_inj : forall t1 t2 i,
    componentIndices w !! t1 = Some i -> componentIndices w !! t2 = Some i ->
    t1 = t2;
}.

(** Result sets are right for the entities in [P]. *)
Definition ResultsOk (w : World) (P : nat -> Prop) : Prop :=
  forall q e, q ∈ queries w -> P e ->
    (e ∈ results q <-> live w e /\ entityMatches w e (masks q) = true).

Record WorldInv (w : World) : Prop := mkWorldInv {
  inv_registry : RegistryInv w;
  inv_storage : StorageInv w;
  inv_results : ResultsOk w (fun _ => True);
  inv_queries : NoDup (masks <$> queries w);
}.

(** A component instance is attached when the component map of some entity
    object holds it. *)
Definition attached (w : World) (c : Component) : Prop :=
  exists e o i, heap w !! e = Some o /\ _components o !! i = Some c.

(** The instance counter is ahead of every attached instance. *)
Definition InstancesFresh (w : World) : Prop :=
  forall c, attached w c -> instanceId c < nextInstance w.

(** Every attached component is stored under the index of its own class. *)
Definition ClassIndexed (w : World) : Prop :=
  forall e o i c,
    heap w !! e = Some o -> _components o !! i = Some c ->
    componentIndices w !! _class c = Some i.

(** Two worlds that differ in the registry only. *)
Definition sameButRegistry (w w' : World) : Prop :=
  heap w' = heap w /\ spaces w' = spaces w /\ queries w' = queries w
  /\ notifications w' = notifications w /\ nextId w' = nextId w
  /\ nextSpace w' = nextSpace w /\ nextInstance w' = nextInstance w.

(** The query a notification is about. *)
Definition notificationMasks (n : Notification) : QueryMasks :=
  match n with
  | Qualify _ m => m
  | Disqualify _ m => m
  end.

(** The notifications of a call follow the transitions of the match state:
    for every registered query and every entity, one qualify when the entity
    starts to match, one disqualify when it stops, none otherwise. *)
Definition Tracks (w w' : World) : Prop :=
  forall q e, q ∈ queries w ->
    occurrences (Qualify e (masks q)) (emitted w w')
    = (if negb (liveMatch w e (masks q)) && liveMatch w' e (masks q)
       then 1 else 0)
    /\ occurrences (Disqualify e (masks q)) (emitted w w')
       = (if liveMatch w e (masks q) && negb (liveMatch w' e (masks q))
          then 1 else 0).

(** ** A small program

    Two component classes, one query over both, one space with two
    entities. *)

Definition movingBodies : QueryDescriptor :=
  mkQueryDescriptor ["Position"; "Velocity"] [] [].

Definition setup : World :=
  run [RegisterComponent "Position"; RegisterComponent "Velocity";
       RegisterQuery movingBodies; CreateSpace; CreateEntity 0; CreateEntity 0;
       Add 0 "Position" []; Add 1 "Position" [7%Z]] World.new.

Definition demo : World := exec (Add 0 "Velocity" [1%Z]) setup.

Definition position0 : Component := mkComponent "Position" 0 0 [].
Definition position1 : Component := mkComponent "Position" 1 1 [7%Z].
Definition velocity0 : Component := mkComponent "Velocity" 2 0 [1%Z].

Definition bodiesMasks : QueryMasks := mkQueryMasks [3%N] [] [].

(** Entity 0 as it is in [demo] and after [destroy]. *)
Definition entity0 : Entity :=
  mkEntity 0 true (Some 0) (Some tt) [3%N]
           (<[0 := position0]> (<[1 := velocity0]> ∅)).

Definition entity0_destroyed : Entity :=
  mkEntity 0 true None None [0%N] ∅.

(** ** The inventory system of the PlayerInventory story *)

Module InventorySystem.

(** [type: 'add' | 'remove'] *)
Inductive EventType :=
| add
| remove.

(** [type InventoryEvent], without its constant topic.  Entities are
    named by their ids, which are allocation numbers in this model, and
    counts are integers (the story emits counts of one). *)
Record InventoryEvent := mkInventoryEvent {
  type : EventType;
  entity : nat;
  item : string;
  count : Z;
}.

(** [class Inventory extends Component]: the name of the class. *)
Definition Inventory : string := "Inventory".

(** [inventory.items]: the [Map] of item ids to counts that an Inventory
    instance holds.  The maps live in a store keyed by instance; an
    instance that was never written holds the [new Map()] of its field
    initialiser. *)
Definition itemsOf (store : gmap nat (gmap string Z)) (inventory : Component)
  : gmap string Z :=
  default ∅ (store !! instanceId inventory).

(** The handler once the inventory is at hand: the count
    [items.get(e.item) ?? 0] is changed by [e.count] and the item is set to
    the new count, or deleted when that count is not positive. *)
Definition updateItems (e : InventoryEvent) (items : gmap string Z)
  : gmap string Z :=
  let itemCount := default 0%Z (items !! item e) in
  let itemCount :=
    (itemCount + match type e with add => count e | remove => - count e end)%Z in
  if (itemCount <=? 0)%Z then delete (item e) items
  else <[item e := itemCount]> items.

(** [all.find((entity) => entity.id === e.entity)] over the entities of the
    query results. *)
Definition findEntity (w : World) (target : nat) (all : list nat) : option nat :=
  List.find (fun r => match heap w !! r with
                      | Some o => bool_decide (id o = target)
                      | None => false
                      end) all.

(** The handler of ['inventory-event'] registered by [onInit], run on the
    entities [all] of [this.results.inventories]. *)
Definition onInventoryEvent (all : list nat) (e : InventoryEvent) (w : World)
    (store : gmap nat (gmap string Z))
  : (Error + unit) * gmap nat (gmap string Z) :=
  match findEntity w (entity e) all with
  | None => (inr tt, store)
  | Some r =>
      match (Entity.get r Inventory w).1 with
      | inl err => (inl err, store)
      | inr inventory =>
          (inr tt,
           <[instanceId inventory := updateItems e (itemsOf store inventory)]> store)
      end
  end.

(** The query of the system: [inventories: [Inventory]]. *)
Definition inventories : QueryDescriptor :=
  mkQueryDescriptor [Inventory] [] [].


End InventorySystem.

(** A world for the inventory system: its query, one space, and the
    player, entity 0, with an Inventory. *)
Definition inventoryWorld : World :=
  run [CreateSpace; CreateEntity 0; Add 0 InventorySystem.Inventory []]
      (registerQuery InventorySystem.inventories World.new).2.

Definition playerInventory : Component :=
  mkComponent InventorySystem.Inventory 0 0 [].

Definition inventoryMasks : QueryMasks := mkQueryMasks [1%N] [] [].

Definition addApples (n : Z) : InventorySystem.InventoryEvent :=
  InventorySystem.mkInventoryEvent InventorySystem.add 0 "apple" n.

(** * Properties *)

(** ** BitSet: reading a bit after an update *)

Module BitSetFacts.
Import BitSet.

Lemma word_grow n b k : word (grow n b) k = word b k.
Proof.
  unfold word, grow.
  destruct (decide (k < length b)) as [Hk|Hk].
  - by rewrite lookup_app_l.
  - rewrite lookup_app_r by lia.
    rewrite (lookup_ge_None_2 b) by lia.
    destruct (replicate _ _ !! _) eqn:E; [|done].
    by apply lookup_replicate in E as [-> _].
Qed.

Lemma length_grow n b : n <= length (grow n b).
Proof. unfold grow. rewrite length_app, length_replicate. lia. Qed.

Lemma word_insert k x b j :
  k < length b ->
  word (<[k := x]> b) j = if decide (k = j) then x else word b j.
Proof.
  intros Hk. unfold word. case_decide as E.
  - subst. by rewrite list_lookup_insert_eq.
  - by rewrite list_lookup_insert_ne.
Qed.

Lemma index_split i j :
  i = j <-> wordIndex i = wordIndex j /\ bitIndex i = bitIndex j.
Proof.
  unfold wordIndex, bitIndex. split; [by intros ->|].
  intros [Hw Hb]. apply Nat2N.inj in Hb.
  rewrite (Nat.div_mod_eq i bitsPerWord), (Nat.div_mod_eq j bitsPerWord).
  by rewrite Hw, Hb.
Qed.

Lemma test_empty i : test i empty = false.
Proof. unfold test, word, empty. by rewrite lookup_nil. Qed.

Lemma test_set i j b :
  test j (set i b) = bool_decide (i = j) || test j b.
Proof.
  unfold test, set.
  rewrite word_insert by (pose proof (length_grow (S (wordIndex i)) b); lia).
  rewrite !word_grow.
  case_decide as Hw.
  - rewrite Hw, N.setbit_eqb.
    f_equal. case_bool_decide as Hij.
    + subst. apply N.eqb_refl.
    + apply N.eqb_neq. intros Hb. apply Hij, index_split. done.
  - case_bool_decide as Hij; [subst; done | done].
Qed.

Lemma test_clear i j b :
  test j (clear i b) = negb (bool_decide (i = j)) && test j b.
Proof.
  unfold test, clear.
  destruct (decide (wordIndex i < length b)) as [Hlt|Hge].
  - rewrite word_insert by done. case_decide as Hw.
    + rewrite Hw, N.clearbit_eqb, andb_comm. f_equal. f_equal.
      case_bool_decide as Hij.
      * subst. apply N.eqb_refl.
      * apply N.eqb_neq. intros Hb. apply Hij, index_split. done.
    + case_bool_decide as Hij; [subst; done | done].
  - rewrite list_insert_ge by lia.
    case_bool_decide as Hij; [|done]. subst. simpl.
    unfold word. by rewrite lookup_ge_None_2 by lia.
Qed.


(** *** Well-formed words *)

Lemma lt_pow2_bits x m :
  (x < 2 ^ m)%N <-> forall n, (m <= n)%N -> N.testbit x n = false.
Proof.
  split.
  - intros Hx n Hn. rewrite <- (N.mod_small x (2 ^ m)) by done.
    by apply N.mod_pow2_bits_high.
  - intros Hbits.
    assert (x = (x mod 2 ^ m)%N) as ->.
    { apply N.bits_inj. intros n.
      destruct (decide (n < m)%N) as [Hlt|Hge].
      - by rewrite N.mod_pow2_bits_low.
      - rewrite N.mod_pow2_bits_high by lia. apply Hbits. lia. }
    apply N.mod_lt, N.pow_nonzero. done.
Qed.

Lemma word_high b k n :
  wf b -> (N.of_nat bitsPerWord <= n)%N -> N.testbit (word b k) n = false.
Proof.
  intros Hb Hn. unfold word. destruct (b !! k) as [x|] eqn:E; simpl.
  - apply (lt_pow2_bits x (N.of_nat bitsPerWord)); [|done].
    by apply (Forall_lookup_1 _ _ _ _ Hb E).
  - done.
Qed.

Lemma index_join k n :
  (n < N.of_nat bitsPerWord)%N ->
  wordIndex (k * bitsPerWord + N.to_nat n) = k
  /\ bitIndex (k * bitsPerWord + N.to_nat n) = n.
Proof.
  intros Hn. unfold wordIndex, bitIndex.
  assert (Hlt : N.to_nat n < bitsPerWord) by lia.
  split.
  - symmetry. apply (Nat.div_unique _ _ k (N.to_nat n)); [done|lia].
  - rewrite <- (Nat.mod_unique _ _ k (N.to_nat n)); [apply N2Nat.id|done|lia].
Qed.

(** A set bit of a word of a well-formed BitSet is the bit of an index. *)
Lemma word_bit_index b k n :
  wf b -> N.testbit (word b k) n = true ->
  exists i, wordIndex i = k /\ bitIndex i = n /\ test i b = true.
Proof.
  intros Hb Hbit.
  assert (Hn : (n < N.of_nat bitsPerWord)%N).
  { destruct (decide (n < N.of_nat bitsPerWord)%N) as [|Hge]; [done|].
    assert (Hle : (N.of_nat bitsPerWord <= n)%N) by (by apply N.nlt_ge).
    pose proof (word_high b k n Hb Hle). congruence. }
  destruct (index_join k n Hn) as [Hk Hi].
  exists (k * bitsPerWord + N.to_nat n). unfold test. by rewrite Hk, Hi.
Qed.

Lemma bitIndex_lt i : (bitIndex i < N.of_nat bitsPerWord)%N.
Proof.
  unfold bitIndex.
  assert (i mod bitsPerWord < bitsPerWord) by (by apply Nat.mod_upper_bound).
  lia.
Qed.

Lemma wf_empty : wf empty.
Proof. apply Forall_nil_2. Qed.

Lemma wf_grow n b : wf b -> wf (grow n b).
Proof.
  intros Hb. apply Forall_app. split; [done|].
  apply Forall_replicate. done.
Qed.

Lemma wf_word b k : wf b -> (word b k < 2 ^ N.of_nat bitsPerWord)%N.
Proof. intros Hb. apply lt_pow2_bits. intros n Hn. by apply word_high. Qed.

Lemma wf_set i b : wf b -> wf (set i b).
Proof.
  intros Hb. unfold set. apply Forall_insert; [by apply wf_grow|].
  apply lt_pow2_bits. intros n Hn.
  rewrite N.setbit_neq by (pose proof (bitIndex_lt i); lia).
  by apply word_high; [apply wf_grow|].
Qed.

Lemma wf_clear i b : wf b -> wf (clear i b).
Proof.
  intros Hb. unfold clear.
  destruct (decide (wordIndex i < length b)) as [Hlt|Hge].
  - apply Forall_insert; [done|]. apply lt_pow2_bits. intros n Hn.
    rewrite N.clearbit_neq by (pose proof (bitIndex_lt i); lia).
    by apply word_high.
  - by rewrite list_insert_ge by lia.
Qed.

Lemma wf_ofIndices l : wf (ofIndices l).
Proof.
  induction l as [|i l IH]; simpl; [apply wf_empty|by apply wf_set].
Qed.

Lemma test_ofIndices l i : test i (ofIndices l) = bool_decide (i ∈ l).
Proof.
  induction l as [|j l IH]; simpl.
  - by rewrite test_empty.
  - rewrite test_set, IH.
    destruct (decide (j = i)) as [->|Hne].
    + rewrite (bool_decide_eq_true_2 (i = i)) by done.
      by rewrite (bool_decide_eq_true_2 (i ∈ i :: l)) by (apply elem_of_cons; by left).
    + rewrite (bool_decide_eq_false_2 (j = i)) by done. simpl.
      apply bool_decide_ext. rewrite elem_of_cons. intuition congruence.
Qed.

(** *** The set operations, bit by bit *)

Lemma word_beyond b k : length b <= k -> word b k = 0%N.
Proof. intros Hk. unfold word. by rewrite lookup_ge_None_2. Qed.

Lemma isSubsetOf_spec a b :
  wf a ->
  isSubsetOf a b = true <-> forall i, test i a = true -> test i b = true.
Proof.
  intros Ha. unfold isSubsetOf. rewrite forallb_forall. split.
  - intros Hall i Hi. unfold test in *.
    destruct (decide (wordIndex i < length a)) as [Hlt|Hge].
    + specialize (Hall (wordIndex i)). rewrite <- list_elem_of_In, elem_of_seq in Hall.
      specialize (Hall ltac:(lia)). apply N.eqb_eq in Hall.
      rewrite <- Hall, N.land_spec in Hi. by apply andb_true_iff in Hi as [_ ?].
    + rewrite word_beyond, N.bits_0 in Hi by lia. done.
  - intros Hsub k _. apply N.eqb_eq, N.bits_inj. intros n.
    rewrite N.land_spec.
    destruct (N.testbit (word a k) n) eqn:E; [|done]. simpl.
    destruct (word_bit_index a k n Ha E) as (i & <- & <- & Hi).
    by apply Hsub.
Qed.

Lemma intersects_spec a b :
  wf a ->
  intersects a b = true <-> exists i, test i a = true /\ test i b = true.
Proof.
  intros Ha. unfold intersects. rewrite existsb_exists. split.
  - intros (k & _ & Hk). apply negb_true_iff, N.eqb_neq in Hk.
    destruct (N.land (word a k) (word b k)) as [|p] eqn:E; [done|].
    assert (exists n, N.testbit (N.land (word a k) (word b k)) n = true)
      as (n & Hn).
    { exists (N.log2 (N.pos p)). rewrite E. by apply N.bit_log2. }
    rewrite N.land_spec in Hn. apply andb_true_iff in Hn as [Hna Hnb].
    destruct (word_bit_index a k n Ha Hna) as (i & Hik & Hin & Hi).
    exists i. split; [done|]. unfold test. by rewrite Hik, Hin.
  - intros (i & Hia & Hib). unfold test in *.
    exists (wordIndex i). split.
    + apply list_elem_of_In, elem_of_seq.
      destruct (decide (wordIndex i < length a)); [lia|].
      rewrite word_beyond, N.bits_0 in Hia by lia. done.
    + apply negb_true_iff, N.eqb_neq. intros Hz.
      assert (N.testbit (N.land (word a (wordIndex i)) (word b (wordIndex i)))
                        (bitIndex i) = true) as Hbit.
      { by rewrite N.land_spec, Hia, Hib. }
      by rewrite Hz, N.bits_0 in Hbit.
Qed.

Lemma isEmpty_spec b :
  wf b -> isEmpty b = true <-> forall i, test i b = false.
Proof.
  intros Hb. unfold isEmpty. rewrite forallb_forall. split.
  - intros Hall i. unfold test, word.
    destruct (b !! wordIndex i) as [x|] eqn:E; simpl; [|done].
    apply list_elem_of_lookup_2, list_elem_of_In, Hall, N.eqb_eq in E.
    subst x. apply N.bits_0.
  - intros Hnone x Hx. apply N.eqb_eq. symmetry. apply N.bits_inj. intros n.
    rewrite N.bits_0.
    apply list_elem_of_In, list_elem_of_lookup in Hx as (k & Hk).
    destruct (N.testbit x n) eqn:E; [|done].
    assert (N.testbit (word b k) n = true) as Hbit.
    { unfold word. by rewrite Hk. }
    destruct (word_bit_index b k n Hb Hbit) as (i & _ & _ & Hi).
    by rewrite Hnone in Hi.
Qed.

End BitSetFacts.

(** ** The lookups of an entity *)

Ltac unfold_m :=
  unfold Entity.add, Entity.get, Entity.find, Entity.has, Entity.remove,
    Entity.destroy, Entity.getAll, Entity.theWorld, World.registerComponent,
    World.registerQuery, mbind, mret, M_bind, M_ret, deref, gets, modify,
    call, throw in *.

Lemma get_spec w this o value :
  heap w !! this = Some o ->
  Entity.get this value w =
    match componentAt o (ComponentRegistry.componentIndex value w) with
    | Some component => (inr component, w)
    | None => (inl (ComponentNotInEntity value (id o)), w)
    end.
Proof.
  intros Ho. unfold_m. rewrite Ho.
  by destruct (componentAt o _).
Qed.

Lemma find_spec w this o value :
  heap w !! this = Some o ->
  Entity.find this value w =
    (inr (componentAt o (ComponentRegistry.componentIndex value w)), w).
Proof. intros Ho. unfold_m. by rewrite Ho. Qed.

Lemma has_spec w this o value :
  heap w !! this = Some o ->
  Entity.has this value w =
    (inr (defined (componentAt o (ComponentRegistry.componentIndex value w))), w).
Proof. intros Ho. unfold_m. by rewrite Ho. Qed.

(** C9: on an entity object, [get] throws an error of the kind
    ComponentNotFoundError exactly when no component of the class is
    attached and otherwise returns the attached component; [find] never
    throws and returns the attached component or [undefined]; [has] returns
    the boolean that tells whether a component is attached.  None of them
    changes the world. *)
Theorem get_find_has w this o value :
  heap w !! this = Some o ->
  let attached := componentAt o (ComponentRegistry.componentIndex value w) in
  (attached = None <->
     exists err, Entity.get this value w = (inl err, w)
                 /\ errorKind err = ComponentNotFoundError)
  /\ (forall c, attached = Some c <-> Entity.get this value w = (inr c, w))
  /\ Entity.find this value w = (inr attached, w)
  /\ Entity.has this value w = (inr (bool_decide (is_Some attached)), w).
Proof.
  intros Ho attached.
  rewrite (get_spec _ _ _ _ Ho), (find_spec _ _ _ _ Ho), (has_spec _ _ _ _ Ho).
  fold attached. destruct attached as [c|]; simpl.
  - repeat split; try done.
    + by intros (err & [=] & _).
    + by intros [= ->].
    + by intros [= ->].
  - repeat split; try done.
    intros _. by eexists.
Qed.

(** C10: on an entity object, [has] answers [true] if and only if [find]
    returns a component, if and only if [get] returns without throwing;
    [find] and [get] return the same instance, which is the one stored in
    the component map under the index of the class. *)
Theorem has_find_get_agree w this o value :
  heap w !! this = Some o ->
  ((Entity.has this value w).1 = inr true <->
     exists c, (Entity.find this value w).1 = inr (Some c))
  /\ ((exists c, (Entity.find this value w).1 = inr (Some c)) <->
      exists c, (Entity.get this value w).1 = inr c)
  /\ (forall c, (Entity.find this value w).1 = inr (Some c) <->
                (Entity.get this value w).1 = inr c)
  /\ (forall c, (Entity.get this value w).1 = inr c ->
        exists ix, ComponentRegistry.componentIndex value w = Some ix
                   /\ _components o !! ix = Some c).
Proof.
  intros Ho.
  rewrite (get_spec _ _ _ _ Ho), (find_spec _ _ _ _ Ho), (has_spec _ _ _ _ Ho).
  unfold componentAt.
  destruct (ComponentRegistry.componentIndex value w) as [ix|]; simpl.
  - destruct (_components o !! ix) as [c|] eqn:Hc; simpl.
    + repeat split; try (by eauto); try (by intros [= ->]).
      intros c' [= ->]. eauto.
    + repeat split; try done; by intros [? [=]].
  - repeat split; try done; by intros [? [=]].
Qed.

(** ** What the mutating methods compute *)

Lemma add_spec w this o clazz args :
  heap w !! this = Some o ->
  Entity.add this clazz args w =
    if truthy (componentAt o (ComponentRegistry.componentIndex clazz w))
    then (inl (CannotAddComponent clazz (id o)), w)
    else match world o with
         | Some _ =>
             let r := SpaceManager.addComponentToEntity this clazz args w in
             (inr r.1, QueryManager.onEntityComponentChange this r.2)
         | None => (inl TypeError, w)
         end.
Proof.
  intros Ho. unfold_m. rewrite Ho.
  destruct (truthy _); [done|]. by destruct (world o).
Qed.

Lemma add_dangling w this clazz args :
  heap w !! this = None -> Entity.add this clazz args w = (inl TypeError, w).
Proof. intros Ho. unfold_m. by rewrite Ho. Qed.

Lemma remove_spec w this o value :
  heap w !! this = Some o ->
  Entity.remove this value w =
    match removeTarget w o value with
    | inl err => (inl err, w)
    | inr component =>
        match world o with
        | Some _ =>
            (inr this,
             QueryManager.onEntityComponentChange this
               (SpaceManager.removeComponentFromEntity this component w))
        | None => (inl TypeError, w)
        end
    end.
Proof.
  intros Ho. unfold_m. rewrite Ho. destruct value as [v|clazz]; simpl.
  - destruct (truthy _); simpl; [|done]. by destruct (world o).
  - rewrite (find_spec _ _ _ _ Ho).
    destruct (componentAt o _); simpl; [|done]. by destruct (world o).
Qed.

Lemma remove_dangling w this value :
  heap w !! this = None -> Entity.remove this value w = (inl TypeError, w).
Proof. intros Ho. unfold_m. by rewrite Ho. Qed.

Lemma destroy_spec w this o :
  heap w !! this = Some o ->
  Entity.destroy this w =
    match space o, world o with
    | Some s, Some _ => (inr tt, SpaceManager.destroyEntity this s w)
    | _, _ => (inr tt, w)
    end.
Proof.
  intros Ho. unfold_m. rewrite Ho.
  by destruct (space o), (world o).
Qed.

Lemma destroy_dangling w this :
  heap w !! this = None -> Entity.destroy this w = (inl TypeError, w).
Proof. intros Ho. unfold_m. by rewrite Ho. Qed.

(** ** Frame properties of the collaborators *)

Lemma registerType_heap type w :
  heap (ComponentRegistry.registerType type w).2 = heap w.
Proof.
  unfold ComponentRegistry.registerType.
  by destruct (componentIndices w !! type).
Qed.

Lemma registerType_nextInstance type w :
  nextInstance (ComponentRegistry.registerType type w).2 = nextInstance w.
Proof.
  unfold ComponentRegistry.registerType.
  by destruct (componentIndices w !! type).
Qed.

Lemma registerType_index type w :
  componentIndices (ComponentRegistry.registerType type w).2 !! type
  = Some (ComponentRegistry.registerType type w).1.
Proof.
  unfold ComponentRegistry.registerType.
  destruct (componentIndices w !! type) eqn:E; simpl; [done|].
  by rewrite lookup_insert_eq.
Qed.

Lemma onEntityComponentChange_heap e w :
  heap (QueryManager.onEntityComponentChange e w) = heap w.
Proof. unfold QueryManager.onEntityComponentChange. by destruct (_ !! _). Qed.

Lemma onEntityComponentChange_registry e w :
  componentIndices (QueryManager.onEntityComponentChange e w) = componentIndices w.
Proof. unfold QueryManager.onEntityComponentChange. by destruct (_ !! _). Qed.

Lemma removeComponentFromEntity_is_Some e c w e' :
  is_Some (heap (SpaceManager.removeComponentFromEntity e c w) !! e')
  <-> is_Some (heap w !! e').
Proof.
  unfold SpaceManager.removeComponentFromEntity.
  destruct (ComponentRegistry.componentIndex _ _); simpl; [|done].
  rewrite lookup_alter. case_decide; [|done]. subst.
  by rewrite fmap_is_Some.
Qed.

Lemma removeAll_is_Some e cs w e' :
  is_Some (heap (foldr (SpaceManager.removeComponentFromEntity e) w cs) !! e')
  <-> is_Some (heap w !! e').
Proof.
  induction cs as [|c cs IH]; simpl; [done|].
  by rewrite removeComponentFromEntity_is_Some.
Qed.

Lemma destroyEntity_orphan e s w o :
  heap w !! e = Some o ->
  exists o', heap (SpaceManager.destroyEntity e s w) !! e = Some o'
             /\ space o' = None /\ world o' = None.
Proof.
  intros Ho. unfold SpaceManager.destroyEntity. rewrite Ho. simpl.
  rewrite lookup_alter_eq.
  destruct (removeAll_is_Some e (values o) w e) as [_ H].
  destruct H as [o1 Ho1]; [by eauto|].
  rewrite Ho1. simpl. eauto.
Qed.

(** C3: on an entity object, [add] of a class already present throws an
    error of the kind DuplicateComponentError, the world is left as it was
    and [find] still returns the first instance; [add] of a class not
    present, on an entity that has a world, returns the component it
    constructed (of that class, from the given arguments, for this entity,
    under the next instance number), and that component is the one attached
    afterwards. *)
Theorem add_duplicate_rejected_else_constructed w this o clazz args :
  heap w !! this = Some o ->
  let attached := componentAt o (ComponentRegistry.componentIndex clazz w) in
  (forall first, attached = Some first ->
     (exists err, Entity.add this clazz args w = (inl err, w)
                  /\ errorKind err = DuplicateComponentError)
     /\ (Entity.find this clazz (Entity.add this clazz args w).2).1
        = inr (Some first))
  /\ (attached = None -> world o = Some tt ->
      exists w',
        Entity.add this clazz args w
        = (inr (mkComponent clazz (nextInstance w) this args), w')
        /\ (Entity.find this clazz w').1
           = inr (Some (mkComponent clazz (nextInstance w) this args))).
Proof.
  intros Ho attached. rewrite (add_spec _ _ _ _ _ Ho). fold attached.
  split.
  - intros first Hfirst. rewrite Hfirst. simpl. split; [by eexists|].
    rewrite (find_spec _ _ _ _ Ho). fold attached. by rewrite Hfirst.
  - intros Hnone Hworld. rewrite Hnone, Hworld. simpl.
    eexists. split.
    + by rewrite registerType_nextInstance.
    + set (r := ComponentRegistry.registerType clazz w).
      assert (Hh : heap r.2 !! this = Some o).
      { unfold r. by rewrite registerType_heap. }
      erewrite find_spec; last first.
      { rewrite onEntityComponentChange_heap. simpl.
        rewrite lookup_alter_eq, Hh. reflexivity. }
      simpl. unfold ComponentRegistry.componentIndex.
      rewrite onEntityComponentChange_registry. simpl.
      unfold r. rewrite registerType_index. simpl.
      by rewrite ?registerType_nextInstance, lookup_insert_eq.
Qed.

(** C5: a call of [add] or [remove] that throws leaves the world, and with
    it the bitset and the component map of the entity, exactly as it was
    before the call. *)
Theorem failed_add_remove_atomic w this :
  (forall clazz args err,
      (Entity.add this clazz args w).1 = inl err ->
      (Entity.add this clazz args w).2 = w)
  /\ (forall value err,
      (Entity.remove this value w).1 = inl err ->
      (Entity.remove this value w).2 = w).
Proof.
  destruct (heap w !! this) as [o|] eqn:Ho.
  - split.
    + intros clazz args err. rewrite (add_spec _ _ _ _ _ Ho).
      destruct (truthy _); [done|]. by destruct (world o).
    + intros value err. rewrite (remove_spec _ _ _ _ Ho).
      destruct (removeTarget w o value); [done|]. by destruct (world o).
  - split.
    + intros. by rewrite add_dangling.
    + intros. by rewrite remove_dangling.
Qed.

(** C6: on an entity object, [destroy] returns without any change of the
    world (hence without notification) when the entity has no space or no
    world, and a second [destroy] right after a first one returns without
    any change of the world. *)
Theorem destroy_idempotent w this o :
  heap w !! this = Some o ->
  (space o = None \/ world o = None -> Entity.destroy this w = (inr tt, w))
  /\ Entity.destroy this (Entity.destroy this w).2
     = (inr tt, (Entity.destroy this w).2).
Proof.
  intros Ho. split.
  - intros H. rewrite (destroy_spec _ _ _ Ho).
    destruct H as [-> | ->]; [done|]. by destruct (space o).
  - rewrite (destroy_spec _ _ _ Ho).
    destruct (space o) as [s|] eqn:Hs, (world o) as [[]|] eqn:Hw; simpl;
      try (rewrite (destroy_spec _ _ _ Ho), Hs, ?Hw; done).
    destruct (destroyEntity_orphan this s w o Ho) as (o' & Ho' & Hs' & Hw').
    by rewrite (destroy_spec _ _ _ Ho'), Hs'.
Qed.

(** ** Liveness *)

Lemma elem_of_liveEntities w e : e ∈ liveEntities w <-> live w e.
Proof.
  unfold liveEntities, live. rewrite elem_of_union_list. split.
  - intros (X & HX & He). apply list_elem_of_fmap in HX as ([s es] & -> & Hin).
    apply elem_of_map_to_list in Hin. eauto.
  - intros (s & es & Hs & He). exists es. split; [|done].
    apply list_elem_of_fmap. exists (s, es). split; [done|].
    by apply elem_of_map_to_list.
Qed.

Lemma liveMatch_true w e q :
  liveMatch w e q = true <-> live w e /\ entityMatches w e q = true.
Proof.
  unfold liveMatch. rewrite andb_true_iff, bool_decide_eq_true.
  by rewrite elem_of_liveEntities.
Qed.

(** ** Re-evaluation of one entity against the queries *)

Lemma evaluate_masks e b q : masks (QueryManager.evaluate e b q).1 = masks q.
Proof.
  unfold QueryManager.evaluate.
  destruct (QueryManager.matches b (masks q)), (bool_decide (e ∈ results q)); done.
Qed.

Lemma evaluate_other e b q e' :
  e' <> e ->
  e' ∈ results (QueryManager.evaluate e b q).1 <-> e' ∈ results q.
Proof.
  intros Hne. unfold QueryManager.evaluate.
  destruct (QueryManager.matches b (masks q)), (bool_decide (e ∈ results q));
    simpl; set_unfold; intuition congruence.
Qed.

Lemma evaluate_self e b q :
  e ∈ results (QueryManager.evaluate e b q).1
  <-> QueryManager.matches b (masks q) = true.
Proof.
  unfold QueryManager.evaluate.
  destruct (QueryManager.matches b (masks q));
    case_bool_decide; simpl; set_unfold; intuition congruence.
Qed.

Lemma deregister_masks e q : masks (QueryManager.deregister e q).1 = masks q.
Proof. unfold QueryManager.deregister. by case_bool_decide. Qed.

Lemma deregister_other e q e' :
  e' <> e ->
  e' ∈ results (QueryManager.deregister e q).1 <-> e' ∈ results q.
Proof.
  intros Hne. unfold QueryManager.deregister.
  case_bool_decide; simpl; set_unfold; intuition congruence.
Qed.

Lemma deregister_self e q : e ∉ results (QueryManager.deregister e q).1.
Proof.
  unfold QueryManager.deregister. case_bool_decide; simpl; set_unfold; intuition congruence.
Qed.

Lemma onEntityComponentChange_queries e w o :
  heap w !! e = Some o ->
  queries (QueryManager.onEntityComponentChange e w)
  = (fun q => (QueryManager.evaluate e (_componentsBitSet o) q).1) <$> queries w.
Proof.
  intros Ho. unfold QueryManager.onEntityComponentChange. rewrite Ho. simpl.
  by rewrite <- list_fmap_compose.
Qed.

Lemma onEntityComponentChange_spaces e w :
  spaces (QueryManager.onEntityComponentChange e w) = spaces w.
Proof. unfold QueryManager.onEntityComponentChange. by destruct (_ !! _). Qed.

Lemma onEntityComponentChange_masks e w :
  masks <$> queries (QueryManager.onEntityComponentChange e w)
  = masks <$> queries w.
Proof.
  destruct (heap w !! e) as [o|] eqn:Ho.
  - rewrite (onEntityComponentChange_queries _ _ _ Ho), <- list_fmap_compose.
    apply list_fmap_ext. intros i q _. simpl. apply evaluate_masks.
  - unfold QueryManager.onEntityComponentChange. by rewrite Ho.
Qed.

Lemma live_ext w w' e : spaces w' = spaces w -> live w' e <-> live w e.
Proof. unfold live. by intros ->. Qed.

Lemma entityMatches_ext w w' e q :
  heap w' !! e = heap w !! e -> entityMatches w' e q = entityMatches w e q.
Proof. unfold entityMatches. by intros ->. Qed.

(** Re-evaluating a live entity makes every result set right for it. *)
Lemma onEntityComponentChange_results e w o :
  heap w !! e = Some o -> live w e ->
  ResultsOk w (fun e' => e' <> e) ->
  ResultsOk (QueryManager.onEntityComponentChange e w) (fun _ => True).
Proof.
  intros Ho Hlive Hok q' e' Hq' _.
  rewrite (onEntityComponentChange_queries _ _ _ Ho) in Hq'.
  apply list_elem_of_fmap in Hq' as (q & -> & Hq).
  rewrite evaluate_masks.
  rewrite (live_ext w) by apply onEntityComponentChange_spaces.
  rewrite (entityMatches_ext w) by (by rewrite onEntityComponentChange_heap).
  destruct (decide (e' = e)) as [->|Hne].
  - rewrite evaluate_self. unfold entityMatches. rewrite Ho. tauto.
  - rewrite evaluate_other by done. by apply Hok.
Qed.

Lemma ResultsOk_weaken w (P Q : nat -> Prop) :
  (forall e, Q e -> P e) -> ResultsOk w P -> ResultsOk w Q.
Proof. intros HPQ Hok q e Hq He. apply Hok; auto. Qed.

Lemma StorageInv_ext w w' :
  heap w' = heap w -> spaces w' = spaces w ->
  nextId w' = nextId w -> nextSpace w' = nextSpace w ->
  StorageInv w -> StorageInv w'.
Proof.
  intros Hh Hs Hi Hn [H1 H2 H3 H4 H5].
  split; rewrite ?Hh, ?Hs, ?Hi, ?Hn; auto.
Qed.

Lemma RegistryInv_ext w w' :
  componentIndices w' = componentIndices w -> nextIndex w' = nextIndex w ->
  RegistryInv w -> RegistryInv w'.
Proof. intros Hr Hn [H1 H2]. split; rewrite ?Hr, ?Hn; auto. Qed.

Lemma ResultsOk_ext w w' P :
  heap w' = heap w -> spaces w' = spaces w -> queries w' = queries w ->
  ResultsOk w P -> ResultsOk w' P.
Proof.
  intros Hh Hs Hq Hok q e. unfold live, entityMatches.
  rewrite Hh, Hs, Hq. apply Hok.
Qed.

(** ** Storage: attaching and detaching a component *)

Lemma BitsAgree_attach ix c o : BitsAgree o -> BitsAgree (attach ix c o).
Proof.
  intros [Hwf Ho]. split; [by apply BitSetFacts.wf_set|].
  intros i. unfold attach. simpl.
  rewrite BitSetFacts.test_set, Ho.
  destruct (decide (ix = i)) as [->|Hne].
  - by rewrite lookup_insert_eq, bool_decide_eq_true_2 by done.
  - by rewrite lookup_insert_ne, bool_decide_eq_false_2 by done.
Qed.

Lemma BitsAgree_detach ix o : BitsAgree o -> BitsAgree (detach ix o).
Proof.
  intros [Hwf Ho]. split; [by apply BitSetFacts.wf_clear|].
  intros i. unfold detach. simpl.
  rewrite BitSetFacts.test_clear, Ho.
  destruct (decide (ix = i)) as [->|Hne].
  - by rewrite lookup_delete_eq, bool_decide_eq_true_2 by done.
  - by rewrite lookup_delete_ne, bool_decide_eq_false_2 by done.
Qed.

Lemma BitsAgree_new n : BitsAgree (mkEntity n false None None BitSet.empty ∅).
Proof.
  split; [apply BitSetFacts.wf_empty|].
  intros i. simpl. rewrite BitSetFacts.test_empty, lookup_empty.
  symmetry. apply bool_decide_eq_false. by intros [? ?].
Qed.

(** Updating one entity object in place, keeping its space and world. *)
Lemma StorageInv_alter w e f :
  (forall o, BitsAgree o -> BitsAgree (f o)) ->
  (forall o, space (f o) = space o) ->
  (forall o, world (f o) = world o) ->
  StorageInv w -> StorageInv (withHeap (alter f e (heap w)) w).
Proof.
  intros Hbits Hspace Hworld [H1 H2 H3 H4 H5]. split; simpl.
  - intros e' o'. rewrite lookup_alter. case_decide as E.
    + subst. destruct (heap w !! e') as [o|] eqn:Ho; [|done].
      intros [= <-]. eauto.
    + eauto.
  - intros s es e' Hs He'. destruct (H2 s es e' Hs He') as (o & Ho & Hso & Hwo).
    rewrite lookup_alter. case_decide as E.
    + subst. rewrite Ho. simpl. eexists. split; [done|].
      by rewrite Hspace, Hworld.
    + eauto.
  - intros e' o'. rewrite lookup_alter. case_decide as E.
    + subst. destruct (heap w !! e') as [o|] eqn:Ho; [|done].
      intros [= <-]. rewrite Hworld, Hspace. eauto.
    + eauto.
  - intros e' He'. apply H4. revert He'. rewrite lookup_alter.
    case_decide; [|done]. subst. by rewrite fmap_is_Some.
  - done.
Qed.

Lemma ResultsOk_alter w e f P :
  ResultsOk w P ->
  ResultsOk (withHeap (alter f e (heap w)) w) (fun e' => P e' /\ e' <> e).
Proof.
  intros Hok q e' Hq [HP Hne]. simpl in Hq.
  rewrite (live_ext w) by done.
  rewrite (entityMatches_ext w) by (simpl; by rewrite lookup_alter_ne).
  by apply Hok.
Qed.

Lemma ResultsOk_alter_bitset w e f P :
  (forall o, _componentsBitSet (f o) = _componentsBitSet o) ->
  ResultsOk w P -> ResultsOk (withHeap (alter f e (heap w)) w) P.
Proof.
  intros Hf Hok q e' Hq HP. simpl in Hq.
  rewrite (live_ext w) by done.
  enough (entityMatches (withHeap (alter f e (heap w)) w) e' (masks q)
          = entityMatches w e' (masks q)) as ->.
  { by apply Hok. }
  unfold entityMatches. simpl. rewrite lookup_alter. case_decide as E; [|done].
  subst. destruct (heap w !! e'); simpl; [|done]. by rewrite Hf.
Qed.

Lemma registerType_spaces type w :
  spaces (ComponentRegistry.registerType type w).2 = spaces w.
Proof.
  unfold ComponentRegistry.registerType.
  by destruct (componentIndices w !! type).
Qed.

Lemma registerType_queries type w :
  queries (ComponentRegistry.registerType type w).2 = queries w.
Proof.
  unfold ComponentRegistry.registerType.
  by destruct (componentIndices w !! type).
Qed.

Lemma registerType_notifications type w :
  notifications (ComponentRegistry.registerType type w).2 = notifications w.
Proof.
  unfold ComponentRegistry.registerType.
  by destruct (componentIndices w !! type).
Qed.

Lemma registerType_nextId type w :
  nextId (ComponentRegistry.registerType type w).2 = nextId w.
Proof.
  unfold ComponentRegistry.registerType.
  by destruct (componentIndices w !! type).
Qed.

Lemma registerType_nextSpace type w :
  nextSpace (ComponentRegistry.registerType type w).2 = nextSpace w.
Proof.
  unfold ComponentRegistry.registerType.
  by destruct (componentIndices w !! type).
Qed.

Lemma registerType_storage type w :
  StorageInv w -> StorageInv (ComponentRegistry.registerType type w).2.
Proof.
  apply StorageInv_ext; auto using registerType_heap, registerType_spaces,
    registerType_nextId, registerType_nextSpace.
Qed.

Lemma registerType_results type w P :
  ResultsOk w P -> ResultsOk (ComponentRegistry.registerType type w).2 P.
Proof.
  apply ResultsOk_ext; auto using registerType_heap, registerType_spaces,
    registerType_queries.
Qed.

Lemma registerType_registry type w :
  RegistryInv w -> RegistryInv (ComponentRegistry.registerType type w).2.
Proof.
  intros [Hb Hi]. unfold ComponentRegistry.registerType.
  destruct (componentIndices w !! type) as [i|] eqn:E; simpl; [by split|].
  split; simpl.
  - intros t i. rewrite lookup_insert. case_decide.
    + intros [= <-]. lia.
    + intros H'. apply Hb in H'. lia.
  - intros t1 t2 i. rewrite !lookup_insert.
    repeat case_decide; subst; try done.
    + intros [= <-] H'. apply Hb in H'. lia.
    + intros H' [= <-]. apply Hb in H'. lia.
    + apply Hi.
Qed.

Lemma addComponentToEntity_storage e clazz args w :
  StorageInv w -> StorageInv (SpaceManager.addComponentToEntity e clazz args w).2.
Proof.
  intros Hw. unfold SpaceManager.addComponentToEntity. simpl.
  eapply StorageInv_ext; [..|apply StorageInv_alter]; try reflexivity.
  - apply BitsAgree_attach.
  - by apply registerType_storage.
Qed.

Lemma addComponentToEntity_results e clazz args w P :
  ResultsOk w P ->
  ResultsOk (SpaceManager.addComponentToEntity e clazz args w).2
            (fun e' => P e' /\ e' <> e).
Proof.
  intros Hw. unfold SpaceManager.addComponentToEntity. simpl.
  eapply ResultsOk_ext; [..|apply ResultsOk_alter]; try reflexivity.
  by apply registerType_results.
Qed.

Lemma removeComponentFromEntity_storage e c w :
  StorageInv w -> StorageInv (SpaceManager.removeComponentFromEntity e c w).
Proof.
  intros Hw. unfold SpaceManager.removeComponentFromEntity.
  destruct (ComponentRegistry.componentIndex _ _); [|done].
  apply StorageInv_alter; auto using BitsAgree_detach.
Qed.

Lemma removeComponentFromEntity_results e c w P :
  ResultsOk w P ->
  ResultsOk (SpaceManager.removeComponentFromEntity e c w)
            (fun e' => P e' /\ e' <> e).
Proof.
  intros Hw. unfold SpaceManager.removeComponentFromEntity.
  destruct (ComponentRegistry.componentIndex _ _).
  - by apply ResultsOk_alter.
  - eapply ResultsOk_weaken; [|done]. tauto.
Qed.

(** ** Storage: destroying an entity *)

Lemma removeComponentFromEntity_frame e c w :
  spaces (SpaceManager.removeComponentFromEntity e c w) = spaces w
  /\ queries (SpaceManager.removeComponentFromEntity e c w) = queries w
  /\ notifications (SpaceManager.removeComponentFromEntity e c w) = notifications w
  /\ componentIndices (SpaceManager.removeComponentFromEntity e c w) = componentIndices w
  /\ nextIndex (SpaceManager.removeComponentFromEntity e c w) = nextIndex w.
Proof.
  unfold SpaceManager.removeComponentFromEntity.
  by destruct (ComponentRegistry.componentIndex _ _).
Qed.

Lemma removeComponentFromEntity_space e c w o :
  heap w !! e = Some o ->
  exists o', heap (SpaceManager.removeComponentFromEntity e c w) !! e = Some o'
             /\ space o' = space o /\ world o' = world o.
Proof.
  intros Ho. unfold SpaceManager.removeComponentFromEntity.
  destruct (ComponentRegistry.componentIndex _ _); simpl; [|by eauto].
  rewrite lookup_alter_eq, Ho. simpl. eauto.
Qed.

Lemma removeAll_frame e cs w :
  spaces (foldr (SpaceManager.removeComponentFromEntity e) w cs) = spaces w
  /\ queries (foldr (SpaceManager.removeComponentFromEntity e) w cs) = queries w
  /\ notifications (foldr (SpaceManager.removeComponentFromEntity e) w cs)
     = notifications w
  /\ componentIndices (foldr (SpaceManager.removeComponentFromEntity e) w cs)
     = componentIndices w
  /\ nextIndex (foldr (SpaceManager.removeComponentFromEntity e) w cs) = nextIndex w.
Proof.
  induction cs as [|c cs IH]; simpl; [done|].
  destruct (removeComponentFromEntity_frame e c
              (foldr (SpaceManager.removeComponentFromEntity e) w cs))
    as (-> & -> & -> & -> & ->).
  done.
Qed.

Lemma removeAll_space e cs w o :
  heap w !! e = Some o ->
  exists o', heap (foldr (SpaceManager.removeComponentFromEntity e) w cs) !! e = Some o'
             /\ space o' = space o /\ world o' = world o.
Proof.
  intros Ho. induction cs as [|c cs (o1 & Ho1 & Hs1 & Hw1)]; simpl; [by eauto|].
  destruct (removeComponentFromEntity_space e c _ _ Ho1) as (o2 & Ho2 & Hs2 & Hw2).
  exists o2. split; [done|]. split; congruence.
Qed.

Lemma removeAll_storage e cs w :
  StorageInv w -> StorageInv (foldr (SpaceManager.removeComponentFromEntity e) w cs).
Proof.
  intros Hw. induction cs as [|c cs IH]; simpl; [done|].
  by apply removeComponentFromEntity_storage.
Qed.

Lemma removeAll_results e cs w P :
  ResultsOk w P ->
  ResultsOk (foldr (SpaceManager.removeComponentFromEntity e) w cs)
            (fun e' => P e' /\ e' <> e).
Proof.
  intros Hw. induction cs as [|c cs IH]; simpl.
  - eapply ResultsOk_weaken; [|done]. tauto.
  - eapply ResultsOk_weaken; [|by apply removeComponentFromEntity_results].
    simpl. tauto.
Qed.

Lemma destroyEntity_leave e s w o :
  heap w !! e = Some o ->
  SpaceManager.destroyEntity e s w
  = SpaceManager.leave e s
      (foldr (SpaceManager.removeComponentFromEntity e) w (values o)).
Proof. intros Ho. unfold SpaceManager.destroyEntity. by rewrite Ho. Qed.

Lemma leave_not_live e s w o :
  heap w !! e = Some o -> space o = Some s -> StorageInv w ->
  ~ live (SpaceManager.leave e s w) e.
Proof.
  intros Ho Hs Hw (s' & es' & Hs' & He'). simpl in Hs'.
  rewrite lookup_alter in Hs'. case_decide as E.
  - subst s'. destruct (spaces w !! s) as [es|]; [|done].
    simpl in Hs'. injection Hs' as <-. set_unfold; intuition congruence.
  - destruct (storage_member _ Hw _ _ _ Hs' He') as (o' & Ho' & Hso' & _).
    congruence.
Qed.

Lemma leave_live_other e s w e' :
  e' <> e -> live (SpaceManager.leave e s w) e' <-> live w e'.
Proof.
  intros Hne. unfold live. simpl. split.
  - intros (s' & es' & Hs' & He'). rewrite lookup_alter in Hs'.
    case_decide as E; [|by eauto]. subst s'.
    destruct (spaces w !! s) as [es|] eqn:Hes; [|done].
    simpl in Hs'. injection Hs' as <-. exists s, es. set_unfold; intuition congruence.
  - intros (s' & es' & Hs' & He').
    destruct (decide (s = s')) as [->|E].
    + exists s', (es' ∖ {[e]}). rewrite lookup_alter_eq, Hs'. set_solver.
    + exists s', es'. by rewrite lookup_alter_ne.
Qed.

Lemma leave_storage e s w o :
  heap w !! e = Some o -> space o = Some s ->
  StorageInv w -> StorageInv (SpaceManager.leave e s w).
Proof.
  intros Ho Hs Hw. split.
  - intros e' o'. simpl. rewrite lookup_alter. case_decide as E.
    + subst e'. rewrite Ho. intros [= <-]. apply (storage_bits _ Hw _ _ Ho).
    + apply (storage_bits _ Hw).
  - intros s' es' e' Hs' He'.
    assert (Hlive : live (SpaceManager.leave e s w) e') by (by exists s', es').
    assert (Hne : e' <> e).
    { intros ->. by eapply leave_not_live. }
    simpl in Hs'. rewrite lookup_alter in Hs'.
    assert (exists es, spaces w !! s' = Some es /\ e' ∈ es) as (es & Hes & He).
    { case_decide as E.
      - subst s'. destruct (spaces w !! s) as [es|]; [|done].
        simpl in Hs'. injection Hs' as <-. exists es. set_unfold; intuition congruence.
      - by eauto. }
    destruct (storage_member _ Hw _ _ _ Hes He) as (o' & Ho' & ? & ?).
    exists o'. simpl. by rewrite lookup_alter_ne.
  - intros e' o'. simpl. rewrite lookup_alter. case_decide as E.
    + subst e'. rewrite Ho. by intros [= <-].
    + intros Ho' Hw'.
      destruct (storage_world _ Hw _ _ Ho' Hw') as (s' & es' & Hso' & Hs' & He').
      destruct (decide (s = s')) as [->|Hss].
      * exists s', (es' ∖ {[e]}). rewrite lookup_alter_eq, Hs'. set_solver.
      * exists s', es'. by rewrite lookup_alter_ne.
  - intros e'. simpl. rewrite lookup_alter. case_decide as E.
    + subst e'. rewrite fmap_is_Some. apply (storage_fresh _ Hw).
    + apply (storage_fresh _ Hw).
  - intros s'. simpl. rewrite lookup_alter. case_decide as E.
    + subst s'. rewrite fmap_is_Some. apply (storage_fresh_space _ Hw).
    + apply (storage_fresh_space _ Hw).
Qed.

Lemma leave_results e s w o :
  heap w !! e = Some o -> space o = Some s -> StorageInv w ->
  ResultsOk w (fun e' => e' <> e) ->
  ResultsOk (SpaceManager.leave e s w) (fun _ => True).
Proof.
  intros Ho Hs Hw Hok q' e' Hq' _. simpl in Hq'.
  rewrite <- list_fmap_compose in Hq'.
  apply list_elem_of_fmap in Hq' as (q & -> & Hq). simpl.
  rewrite deregister_masks.
  destruct (decide (e' = e)) as [->|Hne].
  - split.
    + intros He. by apply deregister_self in He.
    + intros [Hlive _]. exfalso. by eapply leave_not_live.
  - rewrite deregister_other, leave_live_other by done.
    rewrite (entityMatches_ext w) by (simpl; by rewrite lookup_alter_ne).
    by apply Hok.
Qed.

Lemma leave_masks e s w :
  masks <$> queries (SpaceManager.leave e s w) = masks <$> queries w.
Proof.
  simpl. rewrite <- !list_fmap_compose.
  apply list_fmap_ext. intros i q _. simpl. apply deregister_masks.
Qed.

(** ** Storage: creating entities and spaces *)

Lemma not_live_fresh w e : StorageInv w -> nextId w <= e -> ~ live w e.
Proof.
  intros Hw Hge (s & es & Hs & He).
  destruct (storage_member _ Hw _ _ _ Hs He) as (o & Ho & _).
  assert (e < nextId w) by (apply (storage_fresh _ Hw); eauto). lia.
Qed.

Lemma new_storage w : StorageInv w -> StorageInv (Entity.new w).2.
Proof.
  intros Hw. split; simpl.
  - intros e o. rewrite lookup_insert. case_decide as E.
    + intros [= <-]. apply BitsAgree_new.
    + apply (storage_bits _ Hw).
  - intros s es e Hs He.
    destruct (storage_member _ Hw _ _ _ Hs He) as (o & Ho & Hso & Hwo).
    exists o. rewrite lookup_insert_ne; [done|].
    intros <-. assert (nextId w < nextId w); [|lia].
    apply (storage_fresh _ Hw). eauto.
  - intros e o. rewrite lookup_insert. case_decide as E.
    + by intros [= <-].
    + apply (storage_world _ Hw).
  - intros e. rewrite lookup_insert. case_decide as E; [lia|].
    intros He. apply (storage_fresh _ Hw) in He. lia.
  - apply (storage_fresh_space _ Hw).
Qed.

Lemma new_results w :
  StorageInv w -> ResultsOk w (fun _ => True) ->
  ResultsOk (Entity.new w).2 (fun _ => True).
Proof.
  intros Hw Hok q e Hq _. simpl in Hq.
  rewrite (live_ext w) by done.
  destruct (decide (e = nextId w)) as [->|Hne].
  - split.
    + intros He. apply (Hok q _ Hq I) in He as [Hlive _].
      exfalso. by apply (not_live_fresh w (nextId w)).
    + intros [Hlive _]. exfalso. by apply (not_live_fresh w (nextId w)).
  - rewrite (entityMatches_ext w) by (simpl; by rewrite lookup_insert_ne).
    by apply Hok.
Qed.

Lemma createSpace_storage w : StorageInv w -> StorageInv (World.createSpace w).2.
Proof.
  intros Hw. split; simpl.
  - apply (storage_bits _ Hw).
  - intros s es e. rewrite lookup_insert. case_decide as E.
    + intros [= <-]. set_solver.
    + apply (storage_member _ Hw).
  - intros e o Ho Hwo.
    destruct (storage_world _ Hw _ _ Ho Hwo) as (s & es & Hso & Hs & He).
    exists s, es. rewrite lookup_insert_ne; [done|].
    intros <-. assert (nextSpace w < nextSpace w); [|lia].
    apply (storage_fresh_space _ Hw). eauto.
  - apply (storage_fresh _ Hw).
  - intros s. rewrite lookup_insert. case_decide as E; [lia|].
    intros Hs. apply (storage_fresh_space _ Hw) in Hs. lia.
Qed.

Lemma createSpace_live w e :
  StorageInv w -> live (World.createSpace w).2 e <-> live w e.
Proof.
  intros Hw. unfold live. simpl. split.
  - intros (s & es & Hs & He). rewrite lookup_insert in Hs.
    case_decide as E; [|by eauto]. injection Hs as <-. set_solver.
  - intros (s & es & Hs & He). exists s, es. rewrite lookup_insert_ne; [done|].
    intros <-. assert (nextSpace w < nextSpace w); [|lia].
    apply (storage_fresh_space _ Hw). eauto.
Qed.

Lemma createSpace_results w P :
  StorageInv w -> ResultsOk w P -> ResultsOk (World.createSpace w).2 P.
Proof.
  intros Hw Hok q e Hq HP. simpl in Hq.
  rewrite createSpace_live by done.
  rewrite (entityMatches_ext w) by done. by apply Hok.
Qed.

Lemma enter_live n s es w e :
  spaces w !! s = Some es ->
  live (Space.enter n s es w) e <-> e = n \/ live w e.
Proof.
  intros Hs. unfold live. simpl. split.
  - intros (s' & es' & Hs' & He'). rewrite lookup_insert in Hs'.
    case_decide as E.
    + injection Hs' as <-. subst s'.
      apply elem_of_union in He' as [He'|He']; [left; set_solver|].
      right. eauto.
    + right. eauto.
  - intros [->|(s' & es' & Hs' & He')].
    + exists s, ({[n]} ∪ es). rewrite lookup_insert_eq. set_solver.
    + destruct (decide (s = s')) as [<-|E].
      * exists s, ({[n]} ∪ es). rewrite lookup_insert_eq. set_solver.
      * exists s', es'. by rewrite lookup_insert_ne.
Qed.

Lemma enter_storage n s es w o :
  heap w !! n = Some o -> world o = None -> spaces w !! s = Some es ->
  StorageInv w -> StorageInv (Space.enter n s es w).
Proof.
  intros Ho Hwo Hs Hw.
  assert (Hnl : ~ live w n).
  { intros (s' & es' & Hs' & He').
    destruct (storage_member _ Hw _ _ _ Hs' He') as (o' & Ho' & _ & Hwo').
    congruence. }
  split.
  - intros e' o'. simpl. rewrite lookup_alter. case_decide as E.
    + subst e'. rewrite Ho. intros [= <-]. apply (storage_bits _ Hw _ _ Ho).
    + apply (storage_bits _ Hw).
  - intros s' es' e' Hs' He'.
    assert (Hlive : live (Space.enter n s es w) e') by (by exists s', es').
    simpl in Hs'. simpl. rewrite lookup_alter.
    destruct (decide (e' = n)) as [->|Hne].
    + rewrite decide_True, Ho by done. simpl. eexists. split; [done|]. simpl.
      split; [|done]. f_equal.
      rewrite lookup_insert in Hs'. case_decide as E; [done|].
      exfalso. apply Hnl. by exists s', es'.
    + rewrite decide_False by done.
      apply enter_live in Hlive as [?|(s2 & es2 & Hs2 & He2)]; [done| |done].
      rewrite lookup_insert in Hs'. case_decide as E.
      * subst s'. injection Hs' as <-.
        apply (storage_member _ Hw _ es); [done|set_unfold; intuition congruence].
      * by apply (storage_member _ Hw _ es').
  - intros e' o'. simpl. rewrite lookup_alter. case_decide as E.
    + subst e'. rewrite Ho. intros [= <-] _. simpl.
      exists s, ({[n]} ∪ es). rewrite lookup_insert_eq. set_solver.
    + intros Ho' Hwo'.
      destruct (storage_world _ Hw _ _ Ho' Hwo') as (s' & es' & Hso' & Hs' & He').
      destruct (decide (s = s')) as [<-|Hss].
      * exists s, ({[n]} ∪ es). rewrite lookup_insert_eq.
        assert (es' = es) as -> by congruence. set_solver.
      * exists s', es'. by rewrite lookup_insert_ne.
  - intros e'. simpl. rewrite lookup_alter. case_decide as E.
    + subst e'. rewrite fmap_is_Some. apply (storage_fresh _ Hw).
    + apply (storage_fresh _ Hw).
  - intros s'. simpl. rewrite lookup_insert. case_decide as E.
    + subst s'. intros _. apply (storage_fresh_space _ Hw). eauto.
    + apply (storage_fresh_space _ Hw).
Qed.

Lemma enter_results n s es w P :
  spaces w !! s = Some es ->
  ResultsOk w P -> ResultsOk (Space.enter n s es w) (fun e' => P e' /\ e' <> n).
Proof.
  intros Hs Hok q e Hq [HP Hne]. simpl in Hq.
  rewrite enter_live by done.
  rewrite (entityMatches_ext w) by (simpl; by rewrite lookup_alter_ne).
  rewrite (Hok q e Hq HP). tauto.
Qed.

Lemma createEntity_unfold s w es :
  spaces w !! s = Some es ->
  (Space.createEntity s w).2
  = (fun w3 => withHeap (alter initialise (nextId w) (heap w3)) w3)
      (QueryManager.onEntityComponentChange (nextId w)
         (Space.enter (nextId w) s es (Entity.new w).2)).
Proof. intros Hs. unfold Space.createEntity. by rewrite Hs. Qed.

(** ** Registering types and queries *)

Lemma registerType_same type w :
  sameButRegistry w (ComponentRegistry.registerType type w).2.
Proof.
  unfold sameButRegistry, ComponentRegistry.registerType.
  by destruct (componentIndices w !! type).
Qed.

Lemma sameButRegistry_trans w1 w2 w3 :
  sameButRegistry w1 w2 -> sameButRegistry w2 w3 -> sameButRegistry w1 w3.
Proof.
  unfold sameButRegistry.
  intros (-> & -> & -> & -> & -> & -> & ->) (-> & -> & -> & -> & -> & -> & ->).
  done.
Qed.

Lemma registerTypes_same types w :
  sameButRegistry w (ComponentRegistry.registerTypes types w).2.
Proof.
  revert w. induction types as [|t ts IH]; intros w; simpl.
  - by unfold sameButRegistry.
  - eapply sameButRegistry_trans; [apply registerType_same|apply IH].
Qed.

Lemma registerTypes_registry types w :
  RegistryInv w -> RegistryInv (ComponentRegistry.registerTypes types w).2.
Proof.
  revert w. induction types as [|t ts IH]; intros w Hw; simpl; [done|].
  by apply IH, registerType_registry.
Qed.

Lemma compile_same d w : sameButRegistry w (QueryManager.compile d w).2.
Proof.
  unfold QueryManager.compile. simpl.
  eapply sameButRegistry_trans; [apply registerTypes_same|].
  eapply sameButRegistry_trans; apply registerTypes_same.
Qed.

Lemma compile_registry d w :
  RegistryInv w -> RegistryInv (QueryManager.compile d w).2.
Proof.
  intros Hw. unfold QueryManager.compile. simpl.
  by do 3 apply registerTypes_registry.
Qed.

Lemma sameButRegistry_inv w w' :
  sameButRegistry w w' -> RegistryInv w' -> WorldInv w -> WorldInv w'.
Proof.
  intros (Hh & Hs & Hq & Hn & Hi & Hsp & Hin) Hr [_ H2 H3 H4]. split.
  - done.
  - by apply (StorageInv_ext w).
  - by apply (ResultsOk_ext w).
  - by rewrite Hq.
Qed.

Lemma registerQuery_inv d w : WorldInv w -> WorldInv (registerQuery d w).2.
Proof.
  intros Hw.
  assert (Hc : WorldInv (QueryManager.compile d w).2).
  { eapply sameButRegistry_inv; [apply compile_same| |done].
    apply compile_registry, Hw. }
  unfold registerQuery.
  set (c := QueryManager.compile d w) in *.
  case_bool_decide as Hdup; [done|]. simpl.
  destruct Hc as [H1 H2 H3 H4]. split.
  - by destruct H1.
  - by apply (StorageInv_ext c.2).
  - intros q e Hq _. simpl in Hq.
    rewrite (live_ext c.2) by done.
    rewrite (entityMatches_ext c.2) by done.
    apply elem_of_app in Hq as [Hq|Hq]; [by apply H3|].
    apply list_elem_of_singleton in Hq as ->. simpl.
    by rewrite elem_of_filter, elem_of_liveEntities, (comm and).
  - simpl. rewrite fmap_app. apply NoDup_app. split; [done|]. split.
    + intros m Hm Hm'. simpl in Hm'. apply list_elem_of_singleton in Hm' as ->.
      done.
    + simpl. apply NoDup_singleton.
Qed.

(** ** Every call preserves the invariants *)

Lemma onEntityComponentChange_frame e w :
  componentIndices (QueryManager.onEntityComponentChange e w) = componentIndices w
  /\ nextIndex (QueryManager.onEntityComponentChange e w) = nextIndex w
  /\ nextId (QueryManager.onEntityComponentChange e w) = nextId w
  /\ nextSpace (QueryManager.onEntityComponentChange e w) = nextSpace w
  /\ nextInstance (QueryManager.onEntityComponentChange e w) = nextInstance w.
Proof. unfold QueryManager.onEntityComponentChange. by destruct (_ !! _). Qed.

Lemma onEntityComponentChange_storage e w :
  StorageInv w -> StorageInv (QueryManager.onEntityComponentChange e w).
Proof.
  destruct (onEntityComponentChange_frame e w) as (_ & _ & Hi & Hs & _).
  apply StorageInv_ext;
    auto using onEntityComponentChange_heap, onEntityComponentChange_spaces.
Qed.

Lemma onEntityComponentChange_registryInv e w :
  RegistryInv w -> RegistryInv (QueryManager.onEntityComponentChange e w).
Proof.
  destruct (onEntityComponentChange_frame e w) as (Hc & Hn & _).
  by apply RegistryInv_ext.
Qed.

Lemma live_of_world w e o :
  StorageInv w -> heap w !! e = Some o -> world o = Some tt -> live w e.
Proof.
  intros Hw Ho Hwo.
  destruct (storage_world _ Hw _ _ Ho Hwo) as (s & es & _ & Hs & He).
  by exists s, es.
Qed.

Lemma add_inv e clazz args w :
  WorldInv w -> WorldInv (Entity.add e clazz args w).2.
Proof.
  intros Hw. destruct (heap w !! e) as [o|] eqn:Ho;
    [|by rewrite add_dangling].
  rewrite (add_spec _ _ _ _ _ Ho). destruct (truthy _); [done|].
  destruct (world o) as [[]|] eqn:Hwo; [|done]. simpl.
  destruct Hw as [Hr Hs Hq Hn].
  set (w1 := (SpaceManager.addComponentToEntity e clazz args w).2).
  split.
  - apply onEntityComponentChange_registryInv.
    apply (RegistryInv_ext (ComponentRegistry.registerType clazz w).2); try done.
    by apply registerType_registry.
  - by apply onEntityComponentChange_storage, addComponentToEntity_storage.
  - eapply onEntityComponentChange_results.
    + unfold w1. simpl. rewrite lookup_alter_eq, registerType_heap, Ho. done.
    + apply (live_ext w); [|by eapply live_of_world].
      unfold w1. simpl. apply registerType_spaces.
    + eapply ResultsOk_weaken; [|by apply addComponentToEntity_results].
      simpl. tauto.
  - rewrite onEntityComponentChange_masks. unfold w1. simpl.
    by rewrite registerType_queries.
Qed.

Lemma remove_inv e value w :
  WorldInv w -> WorldInv (Entity.remove e value w).2.
Proof.
  intros Hw. destruct (heap w !! e) as [o|] eqn:Ho;
    [|by rewrite remove_dangling].
  rewrite (remove_spec _ _ _ _ Ho). destruct (removeTarget w o value) as [|c]; [done|].
  destruct (world o) as [[]|] eqn:Hwo; [|done]. simpl.
  destruct Hw as [Hr Hs Hq Hn].
  destruct (removeComponentFromEntity_frame e c w) as (Hsp & Hqs & _ & Hci & Hni).
  destruct (removeComponentFromEntity_space e c w o Ho) as (o' & Ho' & Hso' & Hwo').
  split.
  - apply onEntityComponentChange_registryInv. by apply (RegistryInv_ext w).
  - by apply onEntityComponentChange_storage, removeComponentFromEntity_storage.
  - eapply onEntityComponentChange_results; [done| |].
    + apply (live_ext w); [done|by eapply live_of_world].
    + eapply ResultsOk_weaken; [|by apply removeComponentFromEntity_results].
      simpl. tauto.
  - by rewrite onEntityComponentChange_masks, Hqs.
Qed.

Lemma destroy_inv e w : WorldInv w -> WorldInv (Entity.destroy e w).2.
Proof.
  intros Hw. destruct (heap w !! e) as [o|] eqn:Ho;
    [|by rewrite destroy_dangling].
  rewrite (destroy_spec _ _ _ Ho).
  destruct (space o) as [s|] eqn:Hso; [|done].
  destruct (world o) as [[]|] eqn:Hwo; [|done]. simpl.
  rewrite (destroyEntity_leave _ _ _ _ Ho).
  destruct Hw as [Hr Hs Hq Hn].
  set (w1 := foldr (SpaceManager.removeComponentFromEntity e) w (values o)).
  destruct (removeAll_frame e (values o) w) as (Hsp & Hqs & _ & Hci & Hni).
  destruct (removeAll_space e (values o) w o Ho) as (o1 & Ho1 & Hso1 & Hwo1).
  fold w1 in Hsp, Hqs, Hci, Hni, Ho1.
  assert (Hs1 : StorageInv w1) by (by apply removeAll_storage).
  split.
  - by apply (RegistryInv_ext w).
  - eapply leave_storage; [done| |done]. congruence.
  - eapply leave_results; [done| |done|].
    + congruence.
    + eapply ResultsOk_weaken; [|by apply removeAll_results].
      simpl. tauto.
  - by rewrite leave_masks, Hqs.
Qed.

Lemma new_inv w : WorldInv w -> WorldInv (Entity.new w).2.
Proof.
  intros [Hr Hs Hq Hn]. split.
  - by apply (RegistryInv_ext w).
  - by apply new_storage.
  - by apply new_results.
  - done.
Qed.

Lemma createSpace_inv w : WorldInv w -> WorldInv (World.createSpace w).2.
Proof.
  intros [Hr Hs Hq Hn]. split.
  - by apply (RegistryInv_ext w).
  - by apply createSpace_storage.
  - by apply createSpace_results.
  - done.
Qed.

Lemma createEntity_inv s w : WorldInv w -> WorldInv (Space.createEntity s w).2.
Proof.
  intros Hw. destruct (spaces w !! s) as [es|] eqn:Hs;
    [|unfold Space.createEntity; by rewrite Hs].
  rewrite (createEntity_unfold _ _ _ Hs).
  apply new_inv in Hw. destruct Hw as [Hr Hst Hq Hn].
  set (n := nextId w). set (w0 := (Entity.new w).2) in *.
  assert (Ho : heap w0 !! n = Some (mkEntity n false None None BitSet.empty ∅)).
  { unfold w0, n. simpl. by rewrite lookup_insert_eq. }
  assert (Hs0 : spaces w0 !! s = Some es) by done.
  set (w2 := Space.enter n s es w0).
  assert (Hst2 : StorageInv w2) by (by eapply enter_storage).
  assert (Ho2 : heap w2 !! n
                = Some (place s (mkEntity n false None None BitSet.empty ∅))).
  { unfold w2. change (heap (Space.enter n s es w0)) with (alter (place s) n (heap w0)).
    by rewrite lookup_alter_eq, Ho. }
  set (w3 := QueryManager.onEntityComponentChange n w2).
  split.
  - apply (RegistryInv_ext w3); [done|done|].
    by apply onEntityComponentChange_registryInv, (RegistryInv_ext w0).
  - apply StorageInv_alter; try done.
    by apply onEntityComponentChange_storage.
  - apply ResultsOk_alter_bitset; [done|].
    eapply onEntityComponentChange_results; [done| |].
    + apply enter_live; [done|]. by left.
    + eapply ResultsOk_weaken; [|by apply enter_results].
      simpl. tauto.
  - change (NoDup (masks <$> queries w3)). unfold w3.
    by rewrite onEntityComponentChange_masks.
Qed.

Lemma registerComponent_inv type w :
  WorldInv w -> WorldInv (World.registerComponent type w).2.
Proof.
  intros Hw. unfold World.registerComponent, call. simpl.
  eapply sameButRegistry_inv; [apply registerType_same| |done].
  apply registerType_registry, Hw.
Qed.

Lemma new_world_inv : WorldInv World.new.
Proof.
  split.
  - by split.
  - split; simpl; try done.
    + intros e [o Ho]. by rewrite lookup_empty in Ho.
    + intros s [es Hs]. by rewrite lookup_empty in Hs.
  - intros q e Hq. simpl in Hq. by apply elem_of_nil in Hq.
  - simpl. apply NoDup_nil_2.
Qed.

Lemma exec_inv c w : WorldInv w -> WorldInv (exec c w).
Proof.
  intros Hw. destruct c; unfold exec.
  - by apply registerComponent_inv.
  - by apply registerQuery_inv.
  - by apply createSpace_inv.
  - by apply createEntity_inv.
  - by apply new_inv.
  - by apply add_inv.
  - by apply remove_inv.
  - by apply destroy_inv.
Qed.

Lemma reachable_inv w : reachable w -> WorldInv w.
Proof.
  induction 1 as [|c w _ IH]; [apply new_world_inv|by apply exec_inv].
Qed.

Lemma reachable_run cs w : reachable w -> reachable (run cs w).
Proof.
  revert w. induction cs as [|c cs IH]; intros w Hw; [done|].
  apply IH. by apply reachable_exec.
Qed.

(** ** Query results *)

(** C1: in every world a program can reach (that is, after any sequence of
    calls such as add, remove, create and destroy has returned), for every
    registered query and every live entity, the entity is in the result set
    of the query if and only if its bitset contains all of the required
    mask, intersects the any mask unless that mask is empty, and contains
    none of the excluded mask; and result sets hold live entities only. *)
Theorem query_results_are_the_matching_entities w q :
  reachable w -> q ∈ queries w ->
  (forall e o,
      e ∈ liveEntities w -> heap w !! e = Some o ->
      (e ∈ results q <->
       BitSet.containsAll (_componentsBitSet o) (requiredMask (masks q))
       && (BitSet.isEmpty (anyMask (masks q))
           || BitSet.containsAny (_componentsBitSet o) (anyMask (masks q)))
       && BitSet.containsNone (_componentsBitSet o) (excludedMask (masks q))
       = true))
  /\ (forall e, e ∈ results q -> e ∈ liveEntities w).
Proof.
  intros Hw Hq. apply reachable_inv in Hw. destruct Hw as [_ _ Hok _].
  split.
  - intros e o He Ho. rewrite (Hok q e Hq I).
    unfold entityMatches. rewrite Ho. fold (QueryManager.matches (_componentsBitSet o) (masks q)).
    apply elem_of_liveEntities in He. tauto.
  - intros e He. apply (Hok q e Hq I) in He as [He _].
    by apply elem_of_liveEntities.
Qed.

(** ** Bitset and component map *)

Lemma defined_is_Some {A} (v : option A) : defined v = bool_decide (is_Some v).
Proof.
  by destruct v.
Qed.

(** C2: in every world a program can reach (after every mutating call),
    for every entity object and every registered component type, the bit of
    the type's index in the entity's bitset is set if and only if [has]
    answers [true]. *)
Theorem bitset_agrees_with_has w e o type ix :
  reachable w -> heap w !! e = Some o ->
  ComponentRegistry.componentIndex type w = Some ix ->
  Entity.has e type w = (inr (BitSet.test ix (_componentsBitSet o)), w).
Proof.
  intros Hw Ho Hix. apply reachable_inv in Hw.
  rewrite (has_spec _ _ _ _ Ho), Hix. simpl.
  rewrite defined_is_Some.
  by rewrite (proj2 (storage_bits _ (inv_storage _ Hw) _ _ Ho)).
Qed.

(** ** Component type indices *)

Lemma registerType_stable type w t i :
  componentIndices w !! t = Some i ->
  componentIndices (ComponentRegistry.registerType type w).2 !! t = Some i.
Proof.
  intros Ht. unfold ComponentRegistry.registerType.
  destruct (componentIndices w !! type) as [j|] eqn:E; simpl; [done|].
  rewrite lookup_insert_ne; [done|]. congruence.
Qed.

Lemma registerTypes_stable types w t i :
  componentIndices w !! t = Some i ->
  componentIndices (ComponentRegistry.registerTypes types w).2 !! t = Some i.
Proof.
  revert w. induction types as [|t' ts IH]; intros w Ht; simpl; [done|].
  by apply IH, registerType_stable.
Qed.

Lemma exec_stable c w t i :
  componentIndices w !! t = Some i -> componentIndices (exec c w) !! t = Some i.
Proof.
  intros Ht. destruct c; unfold exec.
  - by apply registerType_stable.
  - unfold World.registerQuery, call, registerQuery. simpl.
    assert (componentIndices (QueryManager.compile d w).2 !! t = Some i)
      by (by do 3 apply registerTypes_stable).
    by case_bool_decide.
  - done.
  - unfold Space.createEntity. destruct (spaces w !! s); [|done]. simpl.
    by rewrite onEntityComponentChange_registry.
  - done.
  - destruct (heap w !! e) as [o|] eqn:Ho; [|by rewrite add_dangling].
    rewrite (add_spec _ _ _ _ _ Ho). destruct (truthy _); [done|].
    destruct (world o); [|done]. simpl.
    rewrite onEntityComponentChange_registry. simpl.
    by apply registerType_stable.
  - destruct (heap w !! e) as [o|] eqn:Ho; [|by rewrite remove_dangling].
    rewrite (remove_spec _ _ _ _ Ho). destruct (removeTarget w o value); [done|].
    destruct (world o); [|done]. simpl.
    rewrite onEntityComponentChange_registry.
    destruct (removeComponentFromEntity_frame e c w) as (_ & _ & _ & -> & _).
    done.
  - destruct (heap w !! e) as [o|] eqn:Ho; [|by rewrite destroy_dangling].
    rewrite (destroy_spec _ _ _ Ho).
    destruct (space o) as [s|]; [|done]. destruct (world o); [|done]. simpl.
    rewrite (destroyEntity_leave _ _ _ _ Ho). simpl.
    destruct (removeAll_frame e (values o) w) as (_ & _ & _ & -> & _).
    done.
Qed.

Lemma run_stable cs w t i :
  componentIndices w !! t = Some i -> componentIndices (run cs w) !! t = Some i.
Proof.
  revert w. induction cs as [|c cs IH]; intros w Ht; [done|].
  by apply IH, exec_stable.
Qed.

(** C8: in every world a program can reach, registering a type a second
    time, right away or after any further calls, returns the index of the
    first registration; two distinct registered types have distinct
    indices; and registering two distinct types returns distinct indices. *)
Theorem registerType_idempotent_and_injective w :
  reachable w ->
  (forall type cs,
      (ComponentRegistry.registerType type
         (run cs (ComponentRegistry.registerType type w).2)).1
      = (ComponentRegistry.registerType type w).1)
  /\ (forall t1 t2 i1 i2,
        ComponentRegistry.componentIndex t1 w = Some i1 ->
        ComponentRegistry.componentIndex t2 w = Some i2 ->
        t1 <> t2 -> i1 <> i2)
  /\ (forall t1 t2 cs,
        t1 <> t2 ->
        (ComponentRegistry.registerType t1 w).1
        <> (ComponentRegistry.registerType t2
              (run cs (ComponentRegistry.registerType t1 w).2)).1).
Proof.
  intros Hw.
  assert (Hidem : forall type cs,
      (ComponentRegistry.registerType type
         (run cs (ComponentRegistry.registerType type w).2)).1
      = (ComponentRegistry.registerType type w).1).
  { intros type cs.
    pose proof (run_stable cs _ _ _ (registerType_index type w)) as H.
    unfold ComponentRegistry.registerType at 1. by rewrite H. }
  split; [done|]. split.
  - intros t1 t2 i1 i2 H1 H2 Hne ->. apply Hne.
    by apply (registry_inj _ (inv_registry _ (reachable_inv _ Hw)) t1 t2 i2).
  - intros t1 t2 cs Hne Heq.
    set (w1 := (ComponentRegistry.registerType t1 w).2) in *.
    assert (Hr1 : reachable w1).
    { apply (reachable_exec (RegisterComponent t1) w Hw). }
    set (w2 := run cs w1) in *.
    assert (Hr2 : reachable w2) by (by apply reachable_run).
    set (w3 := (ComponentRegistry.registerType t2 w2).2).
    assert (Hr3 : reachable w3).
    { apply (reachable_exec (RegisterComponent t2) w2 Hr2). }
    apply Hne.
    apply (registry_inj _ (inv_registry _ (reachable_inv _ Hr3)) t1 t2
             (ComponentRegistry.registerType t1 w).1).
    + apply registerType_stable, run_stable, registerType_index.
    + rewrite Heq. apply registerType_index.
Qed.

(** ** Notifications *)

Lemma occurrences_app n l1 l2 :
  occurrences n (l1 ++ l2) = occurrences n l1 + occurrences n l2.
Proof. unfold occurrences. by rewrite filter_app, length_app. Qed.

Lemma occurrences_absent n l : n ∉ l -> occurrences n l = 0.
Proof.
  intros Hn. unfold occurrences. induction l as [|m l IH]; [done|].
  rewrite filter_cons. apply not_elem_of_cons in Hn as [Hne Hn].
  case_decide; [congruence|]. by apply IH.
Qed.

Lemma emitted_app w w' ns :
  notifications w' = notifications w ++ ns -> emitted w w' = ns.
Proof. intros H. unfold emitted. by rewrite H, drop_app_length. Qed.

Lemma emitted_same w w' : notifications w' = notifications w -> emitted w w' = [].
Proof. intros H. apply emitted_app. by rewrite H, app_nil_r. Qed.

Section per_query.

Variable f : Query -> Query * list Notification.
Hypothesis f_masks : forall q n, n ∈ (f q).2 -> notificationMasks n = masks q.

Lemma occurrences_other_queries qs n :
  notificationMasks n ∉ masks <$> qs ->
  occurrences n (concat ((f <$> qs).*2)) = 0.
Proof.
  induction qs as [|q qs IH]; intros Hn; [done|].
  rewrite fmap_cons in Hn. apply not_elem_of_cons in Hn as [Hne Hn].
  csimpl. rewrite occurrences_app, IH by done.
  rewrite occurrences_absent; [done|]. intros Hin. by apply f_masks in Hin.
Qed.

Lemma occurrences_one_query qs q n :
  NoDup (masks <$> qs) -> q ∈ qs -> notificationMasks n = masks q ->
  occurrences n (concat ((f <$> qs).*2)) = occurrences n (f q).2.
Proof.
  induction qs as [|q0 qs IH]; intros Hnd Hq Hn; [by apply elem_of_nil in Hq|].
  rewrite fmap_cons in Hnd. apply NoDup_cons in Hnd as [Hq0 Hnd].
  csimpl. rewrite occurrences_app.
  apply elem_of_cons in Hq as [->|Hq].
  - rewrite occurrences_other_queries; [lia|]. by rewrite Hn.
  - rewrite IH by done. rewrite occurrences_absent; [done|].
    intros Hin. apply f_masks in Hin. apply Hq0. rewrite <- Hin, Hn.
    by apply list_elem_of_fmap_2.
Qed.

End per_query.

Lemma evaluate_emits e b q n :
  n ∈ (QueryManager.evaluate e b q).2 -> notificationMasks n = masks q.
Proof.
  unfold QueryManager.evaluate.
  destruct (QueryManager.matches b (masks q)), (bool_decide (e ∈ results q));
    simpl; intros Hn;
    first [by apply elem_of_nil in Hn
          | by apply list_elem_of_singleton in Hn as ->].
Qed.

Lemma deregister_emits e q n :
  n ∈ (QueryManager.deregister e q).2 -> notificationMasks n = masks q.
Proof.
  unfold QueryManager.deregister.
  destruct (bool_decide (e ∈ results q)); simpl; intros Hn;
    first [by apply elem_of_nil in Hn
          | by apply list_elem_of_singleton in Hn as ->].
Qed.

Lemma occurrences_singleton n m :
  occurrences n [m] = if bool_decide (m = n) then 1 else 0.
Proof.
  unfold occurrences. rewrite filter_cons, filter_nil.
  case_decide; case_bool_decide; done.
Qed.

Lemma evaluate_qualify e b q e' :
  occurrences (Qualify e' (masks q)) (QueryManager.evaluate e b q).2
  = if bool_decide (e' = e)
       && (QueryManager.matches b (masks q) && negb (bool_decide (e ∈ results q)))
    then 1 else 0.
Proof.
  unfold QueryManager.evaluate.
  destruct (QueryManager.matches b (masks q)), (bool_decide (e ∈ results q));
    simpl; rewrite ?andb_false_r; try done;
    rewrite occurrences_singleton; try done.
  rewrite andb_true_r.
  case_bool_decide as E1; case_bool_decide as E2; congruence.
Qed.

Lemma evaluate_disqualify e b q e' :
  occurrences (Disqualify e' (masks q)) (QueryManager.evaluate e b q).2
  = if bool_decide (e' = e)
       && (negb (QueryManager.matches b (masks q)) && bool_decide (e ∈ results q))
    then 1 else 0.
Proof.
  unfold QueryManager.evaluate.
  destruct (QueryManager.matches b (masks q)), (bool_decide (e ∈ results q));
    simpl; rewrite ?andb_false_r; try done;
    rewrite occurrences_singleton; try done.
  rewrite andb_true_r.
  case_bool_decide as E1; case_bool_decide as E2; congruence.
Qed.

Lemma deregister_qualify e q e' :
  occurrences (Qualify e' (masks q)) (QueryManager.deregister e q).2 = 0.
Proof.
  unfold QueryManager.deregister.
  destruct (bool_decide (e ∈ results q)); simpl; [|done].
  by rewrite occurrences_singleton.
Qed.

Lemma deregister_disqualify e q e' :
  occurrences (Disqualify e' (masks q)) (QueryManager.deregister e q).2
  = if bool_decide (e' = e) && bool_decide (e ∈ results q) then 1 else 0.
Proof.
  unfold QueryManager.deregister.
  destruct (bool_decide (e ∈ results q)); simpl;
    rewrite ?andb_false_r; [|done].
  rewrite occurrences_singleton, andb_true_r.
  case_bool_decide as E1; case_bool_decide as E2; congruence.
Qed.

Lemma results_liveMatch w q e :
  ResultsOk w (fun _ => True) -> q ∈ queries w ->
  bool_decide (e ∈ results q) = liveMatch w e (masks q).
Proof.
  intros Hok Hq. destruct (liveMatch w e (masks q)) eqn:E.
  - apply bool_decide_eq_true_2. apply (Hok q e Hq I). by apply liveMatch_true.
  - apply bool_decide_eq_false_2. intros He. apply (Hok q e Hq I) in He.
    apply liveMatch_true in He. congruence.
Qed.

Lemma liveMatch_ext w w' e q :
  (live w' e <-> live w e) -> heap w' !! e = heap w !! e ->
  liveMatch w' e q = liveMatch w e q.
Proof.
  intros Hl Hh. unfold liveMatch. rewrite (entityMatches_ext w w') by done.
  f_equal. apply bool_decide_ext. by rewrite !elem_of_liveEntities.
Qed.

Lemma liveMatch_not_live w e q : ~ live w e -> liveMatch w e q = false.
Proof.
  intros Hl. unfold liveMatch. rewrite bool_decide_eq_false_2; [done|].
  by rewrite elem_of_liveEntities.
Qed.

Lemma Tracks_silent w w' :
  notifications w' = notifications w ->
  (forall e q, liveMatch w' e q = liveMatch w e q) ->
  Tracks w w'.
Proof.
  intros Hn Hm q e Hq. rewrite (emitted_same _ _ Hn), Hm.
  by destruct (liveMatch w e (masks q)).
Qed.

Lemma Tracks_ext w w' w'' :
  notifications w'' = notifications w' ->
  (forall e q, liveMatch w'' e q = liveMatch w' e q) ->
  Tracks w w' -> Tracks w w''.
Proof.
  intros Hn Hm Ht q e Hq. unfold emitted. rewrite Hn, Hm. by apply Ht.
Qed.

Lemma Tracks_change w w1 e o1 :
  ResultsOk w (fun _ => True) -> NoDup (masks <$> queries w) ->
  queries w1 = queries w -> notifications w1 = notifications w ->
  heap w1 !! e = Some o1 -> live w1 e ->
  (forall e' q, e' <> e -> liveMatch w1 e' q = liveMatch w e' q) ->
  Tracks w (QueryManager.onEntityComponentChange e w1).
Proof.
  intros Hok Hnd Hqs Hns Ho1 Hlive Hother q e' Hq.
  set (w' := QueryManager.onEntityComponentChange e w1).
  assert (Hem : emitted w w'
    = concat ((QueryManager.evaluate e (_componentsBitSet o1) <$> queries w).*2)).
  { apply emitted_app. unfold w', QueryManager.onEntityComponentChange.
    rewrite Ho1. simpl. by rewrite Hns, Hqs. }
  rewrite Hem.
  rewrite !(occurrences_one_query _ (evaluate_emits e _) _ q) by done.
  rewrite evaluate_qualify, evaluate_disqualify.
  rewrite (results_liveMatch w) by done.
  destruct (decide (e' = e)) as [->|Hne].
  - rewrite bool_decide_eq_true_2 by done. simpl.
    assert (liveMatch w' e (masks q)
            = QueryManager.matches (_componentsBitSet o1) (masks q)) as ->.
    { unfold liveMatch. rewrite bool_decide_eq_true_2.
      - unfold entityMatches, w'. by rewrite onEntityComponentChange_heap, Ho1.
      - apply elem_of_liveEntities. apply (live_ext w1); [|done].
        apply onEntityComponentChange_spaces. }
    destruct (QueryManager.matches _ _), (liveMatch w e (masks q)); done.
  - rewrite bool_decide_eq_false_2 by done. simpl.
    assert (liveMatch w' e' (masks q) = liveMatch w e' (masks q)) as ->.
    { rewrite <- Hother by done. apply liveMatch_ext.
      - apply live_ext, onEntityComponentChange_spaces.
      - unfold w'. by rewrite onEntityComponentChange_heap. }
    by destruct (liveMatch w e' (masks q)).
Qed.

Lemma Tracks_leave w w1 e s o1 :
  ResultsOk w (fun _ => True) -> NoDup (masks <$> queries w) ->
  queries w1 = queries w -> notifications w1 = notifications w ->
  heap w1 !! e = Some o1 -> space o1 = Some s -> StorageInv w1 ->
  (forall e' q, e' <> e -> liveMatch w1 e' q = liveMatch w e' q) ->
  Tracks w (SpaceManager.leave e s w1).
Proof.
  intros Hok Hnd Hqs Hns Ho1 Hs Hst Hother q e' Hq.
  assert (Hem : emitted w (SpaceManager.leave e s w1)
    = concat ((QueryManager.deregister e <$> queries w).*2)).
  { apply emitted_app. simpl. by rewrite Hns, Hqs. }
  rewrite Hem.
  rewrite !(occurrences_one_query _ (deregister_emits e) _ q) by done.
  rewrite deregister_qualify, deregister_disqualify.
  rewrite (results_liveMatch w) by done.
  destruct (decide (e' = e)) as [->|Hne].
  - rewrite bool_decide_eq_true_2 by done. simpl.
    rewrite (liveMatch_not_live (SpaceManager.leave e s w1))
      by (by eapply leave_not_live).
    by destruct (liveMatch w e (masks q)).
  - rewrite bool_decide_eq_false_2 by done. simpl.
    assert (liveMatch (SpaceManager.leave e s w1) e' (masks q)
            = liveMatch w e' (masks q)) as ->.
    { rewrite <- Hother by done. apply liveMatch_ext.
      - by apply leave_live_other.
      - simpl. by rewrite lookup_alter_ne. }
    by destruct (liveMatch w e' (masks q)).
Qed.

Lemma removeComponentFromEntity_other e c w e' :
  e' <> e ->
  heap (SpaceManager.removeComponentFromEntity e c w) !! e' = heap w !! e'.
Proof.
  intros Hne. unfold SpaceManager.removeComponentFromEntity.
  destruct (ComponentRegistry.componentIndex _ _); [|done].
  simpl. by rewrite lookup_alter_ne.
Qed.

Lemma removeAll_other e cs w e' :
  e' <> e ->
  heap (foldr (SpaceManager.removeComponentFromEntity e) w cs) !! e' = heap w !! e'.
Proof.
  intros Hne. induction cs as [|c cs IH]; simpl; [done|].
  by rewrite removeComponentFromEntity_other.
Qed.

Lemma add_tracks e clazz args w :
  WorldInv w -> Tracks w (Entity.add e clazz args w).2.
Proof.
  intros Hw. destruct (heap w !! e) as [o|] eqn:Ho;
    [|rewrite add_dangling by done; by apply Tracks_silent].
  rewrite (add_spec _ _ _ _ _ Ho).
  destruct (truthy _); [by apply Tracks_silent|].
  destruct (world o) as [[]|] eqn:Hwo; [|by apply Tracks_silent]. simpl.
  destruct Hw as [Hr Hs Hq Hn].
  set (w1 := (SpaceManager.addComponentToEntity e clazz args w).2).
  assert (Hsp : spaces w1 = spaces w) by apply registerType_spaces.
  eapply (Tracks_change w w1); try done.
  - apply registerType_queries.
  - apply registerType_notifications.
  - unfold w1. simpl. by rewrite lookup_alter_eq, registerType_heap, Ho.
  - apply (live_ext w); [done|by eapply live_of_world].
  - intros e' q Hne. apply liveMatch_ext; [by apply live_ext|].
    unfold w1. simpl. by rewrite lookup_alter_ne, registerType_heap.
Qed.

Lemma remove_tracks e value w :
  WorldInv w -> Tracks w (Entity.remove e value w).2.
Proof.
  intros Hw. destruct (heap w !! e) as [o|] eqn:Ho;
    [|rewrite remove_dangling by done; by apply Tracks_silent].
  rewrite (remove_spec _ _ _ _ Ho).
  destruct (removeTarget w o value) as [|c]; [by apply Tracks_silent|].
  destruct (world o) as [[]|] eqn:Hwo; [|by apply Tracks_silent]. simpl.
  destruct Hw as [Hr Hs Hq Hn].
  destruct (removeComponentFromEntity_frame e c w) as (Hsp & Hqs & Hns & _).
  destruct (removeComponentFromEntity_space e c w o Ho) as (o' & Ho' & _).
  eapply Tracks_change; try done.
  - apply (live_ext w); [done|by eapply live_of_world].
  - intros e' q Hne. apply liveMatch_ext; [by apply live_ext|].
    by apply removeComponentFromEntity_other.
Qed.

Lemma destroy_tracks e w : WorldInv w -> Tracks w (Entity.destroy e w).2.
Proof.
  intros Hw. destruct (heap w !! e) as [o|] eqn:Ho;
    [|rewrite destroy_dangling by done; by apply Tracks_silent].
  rewrite (destroy_spec _ _ _ Ho).
  destruct (space o) as [s|] eqn:Hso; [|by apply Tracks_silent].
  destruct (world o) as [[]|] eqn:Hwo; [|by apply Tracks_silent]. simpl.
  rewrite (destroyEntity_leave _ _ _ _ Ho).
  destruct Hw as [Hr Hs Hq Hn].
  destruct (removeAll_frame e (values o) w) as (Hsp & Hqs & Hns & _).
  destruct (removeAll_space e (values o) w o Ho) as (o1 & Ho1 & Hso1 & _).
  eapply Tracks_leave; try done.
  - congruence.
  - by apply removeAll_storage.
  - intros e' q Hne. apply liveMatch_ext; [by apply live_ext|].
    by apply removeAll_other.
Qed.

Lemma createEntity_tracks s w : WorldInv w -> Tracks w (Space.createEntity s w).2.
Proof.
  intros Hw. destruct (spaces w !! s) as [es|] eqn:Hs;
    [|unfold Space.createEntity; rewrite Hs; by apply Tracks_silent].
  rewrite (createEntity_unfold _ _ _ Hs).
  destruct Hw as [Hr Hst Hq Hn].
  set (n := nextId w). set (w1 := Space.enter n s es (Entity.new w).2).
  assert (Ho : heap w1 !! n
               = Some (place s (mkEntity n false None None BitSet.empty ∅))).
  { unfold w1. change (heap (Space.enter n s es (Entity.new w).2))
      with (alter (place s) n (<[n := mkEntity n false None None BitSet.empty ∅]> (heap w))).
    by rewrite lookup_alter_eq, lookup_insert_eq. }
  eapply Tracks_ext; last first.
  - eapply (Tracks_change w w1); try done.
    + apply enter_live; [done|]. by left.
    + intros e' q Hne. apply liveMatch_ext.
      * unfold w1. rewrite enter_live by done.
        rewrite (live_ext w (Entity.new w).2) by done. tauto.
      * unfold w1. simpl. by rewrite lookup_alter_ne, lookup_insert_ne.
  - intros e q. unfold liveMatch. f_equal.
    unfold entityMatches. simpl. rewrite lookup_alter.
    case_decide as E; [|done]. subst e.
    by destruct (heap (QueryManager.onEntityComponentChange n w1) !! n).
  - done.
Qed.

Lemma new_tracks w : WorldInv w -> Tracks w (Entity.new w).2.
Proof.
  intros Hw. apply Tracks_silent; [done|]. intros e q.
  destruct (decide (e = nextId w)) as [->|Hne].
  - rewrite !liveMatch_not_live; [done| |].
    + apply not_live_fresh; [apply Hw|done].
    + rewrite (live_ext w) by done. apply not_live_fresh; [apply Hw|done].
  - apply liveMatch_ext; [by apply live_ext|].
    simpl. by rewrite lookup_insert_ne.
Qed.

Lemma registerQuery_tracks d w : Tracks w (World.registerQuery d w).2.
Proof.
  unfold World.registerQuery, call. simpl.
  destruct (compile_same d w) as (Hh & Hs & Hq & Hn & _).
  unfold registerQuery. set (c := QueryManager.compile d w) in *.
  apply Tracks_silent.
  - by case_bool_decide.
  - intros e q. apply liveMatch_ext.
    + apply live_ext. by case_bool_decide.
    + case_bool_decide; exact (f_equal (fun h => h !! e) Hh).
Qed.

(** C7: in every world a program can reach, for every registered query and
    every entity, a single call emits exactly one qualify notification for
    the pair when the entity goes from not matching to matching, exactly one
    disqualify notification when it goes from matching to not matching, and
    no notification for the pair otherwise (matching is that of a live
    entity: an entity that is not live matches nothing). *)
Theorem notifications_follow_match_transitions w c q e :
  reachable w -> q ∈ queries w ->
  occurrences (Qualify e (masks q)) (emitted w (exec c w))
  = (if negb (liveMatch w e (masks q)) && liveMatch (exec c w) e (masks q)
     then 1 else 0)
  /\ occurrences (Disqualify e (masks q)) (emitted w (exec c w))
     = (if liveMatch w e (masks q) && negb (liveMatch (exec c w) e (masks q))
        then 1 else 0).
Proof.
  intros Hw. apply reachable_inv in Hw. revert q e.
  change (Tracks w (exec c w)).
  destruct c; unfold exec.
  - apply Tracks_silent.
    + apply registerType_notifications.
    + intros e q. apply liveMatch_ext.
      * apply live_ext, registerType_spaces.
      * unfold World.registerComponent, call. simpl. by rewrite registerType_heap.
  - apply registerQuery_tracks.
  - apply Tracks_silent; [done|]. intros e q.
    apply liveMatch_ext; [|done]. apply createSpace_live, Hw.
  - by apply createEntity_tracks.
  - by apply new_tracks.
  - by apply add_tracks.
  - by apply remove_tracks.
  - by apply destroy_tracks.
Qed.

(** ** The small program, evaluated *)

Lemma get_find_has_witness :
  heap demo !! 0 = Some entity0
  /\ Entity.get 0 "Position" demo = (inr position0, demo)
  /\ Entity.find 0 "Position" demo = (inr (Some position0), demo)
  /\ Entity.has 0 "Position" demo = (inr true, demo)
  /\ (exists err, Entity.get 0 "Health" demo = (inl err, demo)
                  /\ errorKind err = ComponentNotFoundError).
Proof.
  assert (H : heap demo !! 0 = Some entity0) by (vm_compute; reflexivity).
  destruct (get_find_has demo 0 entity0 "Position" H) as (_ & Hget & Hfind & Hhas).
  destruct (get_find_has demo 0 entity0 "Health" H) as (Hnone & _).
  split; [exact H|]. split; [|split; [|split]].
  - apply Hget. vm_compute. reflexivity.
  - rewrite Hfind. vm_compute. reflexivity.
  - rewrite Hhas. vm_compute. reflexivity.
  - apply Hnone. vm_compute. reflexivity.
Defined.

Lemma has_find_get_agree_witness :
  heap demo !! 0 = Some entity0
  /\ (Entity.has 0 "Position" demo).1 = inr true
  /\ (exists c, (Entity.find 0 "Position" demo).1 = inr (Some c))
  /\ (Entity.get 0 "Position" demo).1 = inr position0
  /\ (exists ix, ComponentRegistry.componentIndex "Position" demo = Some ix
                 /\ _components entity0 !! ix = Some position0).
Proof.
  assert (H : heap demo !! 0 = Some entity0) by (vm_compute; reflexivity).
  destruct (has_find_get_agree demo 0 entity0 "Position" H)
    as (Hhas & Hfind & Hsame & Hmap).
  assert (Hf : (Entity.find 0 "Position" demo).1 = inr (Some position0))
    by (vm_compute; reflexivity).
  split; [exact H|]. split; [|split; [|split]].
  - apply Hhas. exists position0. exact Hf.
  - exists position0. exact Hf.
  - apply Hsame. exact Hf.
  - apply Hmap. apply Hsame. exact Hf.
Defined.

Lemma add_duplicate_rejected_else_constructed_witness :
  heap demo !! 0 = Some entity0
  /\ (exists err, Entity.add 0 "Position" [] demo = (inl err, demo)
                  /\ errorKind err = DuplicateComponentError)
  /\ (Entity.find 0 "Position" (Entity.add 0 "Position" [] demo).2).1
     = inr (Some position0)
  /\ (exists w', Entity.add 0 "Health" [5%Z] demo
                 = (inr (mkComponent "Health" (nextInstance demo) 0 [5%Z]), w')
                 /\ (Entity.find 0 "Health" w').1
                    = inr (Some (mkComponent "Health" (nextInstance demo) 0 [5%Z]))).
Proof.
  assert (H : heap demo !! 0 = Some entity0) by (vm_compute; reflexivity).
  destruct (add_duplicate_rejected_else_constructed demo 0 entity0 "Position" [] H)
    as (Hdup & _).
  destruct (add_duplicate_rejected_else_constructed demo 0 entity0 "Health" [5%Z] H)
    as (_ & Hnew).
  destruct (Hdup position0) as (Herr & Hfirst); [vm_compute; reflexivity|].
  split; [exact H|]. split; [exact Herr|]. split; [exact Hfirst|].
  apply Hnew; vm_compute; reflexivity.
Defined.

Lemma failed_add_remove_atomic_witness :
  (Entity.add 0 "Position" [] demo).1 = inl (CannotAddComponent "Position" 0)
  /\ (Entity.add 0 "Position" [] demo).2 = demo
  /\ (Entity.remove 0 (Entity.Class "Health") demo).1 = inl ComponentDoesNotExist
  /\ (Entity.remove 0 (Entity.Class "Health") demo).2 = demo.
Proof.
  destruct (failed_add_remove_atomic demo 0) as (Hadd & Hremove).
  assert (H1 : (Entity.add 0 "Position" [] demo).1
               = inl (CannotAddComponent "Position" 0))
    by (vm_compute; reflexivity).
  assert (H2 : (Entity.remove 0 (Entity.Class "Health") demo).1
               = inl ComponentDoesNotExist)
    by (vm_compute; reflexivity).
  split; [exact H1|]. split; [exact (Hadd _ _ _ H1)|].
  split; [exact H2|]. exact (Hremove _ _ H2).
Defined.

Lemma destroy_idempotent_witness :
  heap demo !! 0 = Some entity0
  /\ Entity.destroy 0 (Entity.destroy 0 demo).2 = (inr tt, (Entity.destroy 0 demo).2)
  /\ heap (exec (Destroy 0) demo) !! 0 = Some entity0_destroyed
  /\ Entity.destroy 0 (exec (Destroy 0) demo) = (inr tt, exec (Destroy 0) demo).
Proof.
  assert (H : heap demo !! 0 = Some entity0) by (vm_compute; reflexivity).
  assert (H' : heap (exec (Destroy 0) demo) !! 0 = Some entity0_destroyed)
    by (vm_compute; reflexivity).
  destruct (destroy_idempotent demo 0 entity0 H) as (_ & Htwice).
  destruct (destroy_idempotent (exec (Destroy 0) demo) 0 entity0_destroyed H')
    as (Hnoop & _).
  split; [exact H|]. split; [exact Htwice|]. split; [exact H'|].
  apply Hnoop. left. reflexivity.
Defined.

Lemma query_results_are_the_matching_entities_witness :
  reachable demo
  /\ mkQuery bodiesMasks {[0]} ∈ queries demo
  /\ 0 ∈ liveEntities demo
  /\ heap demo !! 0 = Some entity0
  /\ (0 ∈ results (mkQuery bodiesMasks {[0]}) <->
      BitSet.containsAll [3%N] [3%N]
      && (BitSet.isEmpty [] || BitSet.containsAny [3%N] [])
      && BitSet.containsNone [3%N] [] = true).
Proof.
  assert (Hr : reachable demo).
  { apply (reachable_exec _ setup), reachable_run, reachable_new. }
  assert (Hq : mkQuery bodiesMasks {[0]} ∈ queries demo).
  { apply (list_elem_of_lookup_2 _ 0). vm_compute. reflexivity. }
  assert (Hl : 0 ∈ liveEntities demo).
  { apply (bool_decide_eq_true_1 _). vm_compute. reflexivity. }
  assert (Ho : heap demo !! 0 = Some entity0) by (vm_compute; reflexivity).
  destruct (query_results_are_the_matching_entities demo _ Hr Hq) as (Hiff & _).
  split; [exact Hr|]. split; [exact Hq|]. split; [exact Hl|]. split; [exact Ho|].
  exact (Hiff 0 entity0 Hl Ho).
Defined.

Lemma bitset_agrees_with_has_witness :
  reachable demo
  /\ heap demo !! 0 = Some entity0
  /\ ComponentRegistry.componentIndex "Velocity" demo = Some 1
  /\ Entity.has 0 "Velocity" demo = (inr (BitSet.test 1 [3%N]), demo).
Proof.
  assert (Hr : reachable demo).
  { apply (reachable_exec _ setup), reachable_run, reachable_new. }
  assert (Ho : heap demo !! 0 = Some entity0) by (vm_compute; reflexivity).
  assert (Hi : ComponentRegistry.componentIndex "Velocity" demo = Some 1)
    by (vm_compute; reflexivity).
  split; [exact Hr|]. split; [exact Ho|]. split; [exact Hi|].
  exact (bitset_agrees_with_has demo 0 entity0 "Velocity" 1 Hr Ho Hi).
Defined.

Lemma registerType_idempotent_and_injective_witness :
  reachable demo
  /\ (ComponentRegistry.registerType "Health"
        (run [Add 1 "Velocity" []] (ComponentRegistry.registerType "Health" demo).2)).1
     = (ComponentRegistry.registerType "Health" demo).1
  /\ ComponentRegistry.componentIndex "Position" demo = Some 0
  /\ ComponentRegistry.componentIndex "Velocity" demo = Some 1
  /\ 0 <> 1
  /\ (ComponentRegistry.registerType "Health" demo).1
     <> (ComponentRegistry.registerType "Mass"
           (run [] (ComponentRegistry.registerType "Health" demo).2)).1.
Proof.
  assert (Hr : reachable demo).
  { apply (reachable_exec _ setup), reachable_run, reachable_new. }
  destruct (registerType_idempotent_and_injective demo Hr) as (Hidem & Hinj & Hnew).
  assert (Hp : ComponentRegistry.componentIndex "Position" demo = Some 0)
    by (vm_compute; reflexivity).
  assert (Hv : ComponentRegistry.componentIndex "Velocity" demo = Some 1)
    by (vm_compute; reflexivity).
  split; [exact Hr|]. split; [apply Hidem|]. split; [exact Hp|].
  split; [exact Hv|]. split.
  - apply (Hinj "Position" "Velocity" 0 1 Hp Hv). discriminate.
  - apply Hnew. discriminate.
Defined.

Lemma notifications_follow_match_transitions_witness :
  reachable setup
  /\ mkQuery bodiesMasks ∅ ∈ queries setup
  /\ occurrences (Qualify 0 bodiesMasks)
       (emitted setup (exec (Add 0 "Velocity" [1%Z]) setup)) = 1
  /\ occurrences (Disqualify 0 bodiesMasks)
       (emitted setup (exec (Add 0 "Velocity" [1%Z]) setup)) = 0.
Proof.
  assert (Hr : reachable setup) by apply reachable_run, reachable_new.
  assert (Hq : mkQuery bodiesMasks ∅ ∈ queries setup).
  { apply (list_elem_of_lookup_2 _ 0). vm_compute. reflexivity. }
  destruct (notifications_follow_match_transitions setup
              (Add 0 "Velocity" [1%Z]) _ 0 Hr Hq) as (Hqual & Hdis).
  split; [exact Hr|]. split; [exact Hq|]. split.
  - etransitivity; [exact Hqual|]. vm_compute. reflexivity.
  - etransitivity; [exact Hdis|]. vm_compute. reflexivity.
Defined.

(** ** Removing by instance *)

(** What the guard of [remove] decides: by class, the call throws when no
    component of the class is attached; by instance, it throws when no
    component of the class of the instance is attached, whichever instance
    that is. *)
Lemma remove_throws_iff w this o value :
  heap w !! this = Some o -> world o = Some tt ->
  (exists err, (Entity.remove this value w).1 = inl err)
  <-> match value with
      | Entity.Instance v =>
          componentAt o (ComponentRegistry.componentIndex (_class v) w) = None
      | Entity.Class clazz =>
          componentAt o (ComponentRegistry.componentIndex clazz w) = None
      end.
Proof.
  intros Ho Hwo. rewrite (remove_spec _ _ _ _ Ho), Hwo.
  destruct value as [v|clazz]; simpl;
    destruct (componentAt o _); simpl; split;
    first [done | by intros [? [=]] | by eexists].
Qed.

(** C4, evaluated where it fails: entity 0 and entity 1 both own a Position;
    [remove] on entity 0 with the instance attached to entity 1, which is
    not the instance attached to entity 0, does not throw: it returns
    entity 0, whose own Position is gone afterwards, while entity 1 still
    has the instance that was passed. *)
Example remove_accepts_foreign_instance :
  (Entity.find 0 "Position" demo).1 = inr (Some position0)
  /\ (Entity.find 1 "Position" demo).1 = inr (Some position1)
  /\ position1 <> position0
  /\ (Entity.remove 0 (Entity.Instance position1) demo).1 = inr 0
  /\ (Entity.find 0 "Position"
        (Entity.remove 0 (Entity.Instance position1) demo).2).1 = inr None
  /\ (Entity.find 1 "Position"
        (Entity.remove 0 (Entity.Instance position1) demo).2).1
     = inr (Some position1).
Proof. vm_compute. repeat split. discriminate. Qed.

(** ** Matching, bit by bit *)

Lemma registerQuery_queries d w :
  queries (registerQuery d w).2 = queries (QueryManager.compile d w).2
  \/ queries (registerQuery d w).2
     = queries (QueryManager.compile d w).2
       ++ [mkQuery (QueryManager.compile d w).1
             (filter (fun e => entityMatches (QueryManager.compile d w).2 e
                                 (QueryManager.compile d w).1 = true)
                     (liveEntities (QueryManager.compile d w).2))].
Proof. unfold registerQuery. case_bool_decide; [by left|by right]. Qed.

Lemma exec_masks c w :
  masks <$> queries (exec c w) = masks <$> queries w
  \/ exists d, masks <$> queries (exec c w)
               = (masks <$> queries w) ++ [(QueryManager.compile d w).1].
Proof.
  destruct c; unfold exec.
  - left. unfold World.registerComponent, call. simpl.
    by rewrite registerType_queries.
  - unfold World.registerQuery, call. cbn [snd].
    destruct (compile_same d w) as (_ & _ & Hq & _).
    destruct (registerQuery_queries d w) as [->| ->].
    + left. by rewrite Hq.
    + right. exists d. by rewrite fmap_app, Hq.
  - by left.
  - left. destruct (spaces w !! s) as [es|] eqn:Hs;
      [|unfold Space.createEntity; by rewrite Hs].
    rewrite (createEntity_unfold _ _ _ Hs).
    change (masks <$> queries (QueryManager.onEntityComponentChange (nextId w)
                                 (Space.enter (nextId w) s es (Entity.new w).2))
            = masks <$> queries w).
    by rewrite onEntityComponentChange_masks.
  - by left.
  - left. destruct (heap w !! e) as [o|] eqn:Ho; [|by rewrite add_dangling].
    rewrite (add_spec _ _ _ _ _ Ho). destruct (truthy _); [done|].
    destruct (world o); [|done]. simpl.
    rewrite onEntityComponentChange_masks. simpl.
    by rewrite registerType_queries.
  - left. destruct (heap w !! e) as [o|] eqn:Ho; [|by rewrite remove_dangling].
    rewrite (remove_spec _ _ _ _ Ho). destruct (removeTarget w o value) as [|c]; [done|].
    destruct (world o); [|done]. simpl.
    rewrite onEntityComponentChange_masks.
    by destruct (removeComponentFromEntity_frame e c w) as (_ & -> & _).
  - left. destruct (heap w !! e) as [o|] eqn:Ho; [|by rewrite destroy_dangling].
    rewrite (destroy_spec _ _ _ Ho).
    destruct (space o) as [s|]; [|done]. destruct (world o); [|done]. simpl.
    rewrite (destroyEntity_leave _ _ _ _ Ho), leave_masks.
    by destruct (removeAll_frame e (values o) w) as (_ & -> & _).
Qed.

Lemma reachable_masks_wf w q : reachable w -> q ∈ queries w -> MasksWf (masks q).
Proof.
  intros Hw Hq.
  assert (Hall : Forall MasksWf (masks <$> queries w)).
  { clear q Hq. induction Hw as [|c w _ IH]; [apply Forall_nil_2|].
    destruct (exec_masks c w) as [->|(d & ->)]; [done|].
    apply Forall_app. split; [done|]. apply Forall_singleton.
    repeat split; apply BitSetFacts.wf_ofIndices. }
  rewrite Forall_forall in Hall. apply Hall. by apply list_elem_of_fmap_2.
Qed.

Lemma matches_spec b q :
  BitSet.wf b -> MasksWf q ->
  QueryManager.matches b q = true <->
  (forall i, BitSet.test i (requiredMask q) = true -> BitSet.test i b = true)
  /\ ((forall i, BitSet.test i (anyMask q) = false)
      \/ exists i, BitSet.test i b = true /\ BitSet.test i (anyMask q) = true)
  /\ (forall i, BitSet.test i (excludedMask q) = true -> BitSet.test i b = false).
Proof.
  intros Hb (Hr & Ha & Hx). unfold QueryManager.matches,
    BitSet.containsAll, BitSet.containsAny, BitSet.containsNone.
  rewrite !andb_true_iff, orb_true_iff, negb_true_iff.
  rewrite BitSetFacts.isSubsetOf_spec, BitSetFacts.isEmpty_spec,
    BitSetFacts.intersects_spec by done.
  rewrite <- not_true_iff_false, BitSetFacts.intersects_spec by done.
  split.
  - intros ((H1 & H2) & H3). repeat split; [done..|].
    intros i Hi. apply not_true_iff_false. intros Hbi. apply H3. eauto.
  - intros (H1 & H2 & H3). repeat split; [done..|].
    intros (i & Hbi & Hi). apply H3 in Hi. congruence.
Qed.

(** The result sets of a reachable world, in terms of the bits of the
    entity: all required bits, some any-of bit unless there is none, no
    excluded bit. *)
Lemma query_results_bit_by_bit w q e o :
  reachable w -> q ∈ queries w ->
  e ∈ liveEntities w -> heap w !! e = Some o ->
  e ∈ results q <->
  (forall i, BitSet.test i (requiredMask (masks q)) = true ->
             BitSet.test i (_componentsBitSet o) = true)
  /\ ((forall i, BitSet.test i (anyMask (masks q)) = false)
      \/ exists i, BitSet.test i (_componentsBitSet o) = true
                   /\ BitSet.test i (anyMask (masks q)) = true)
  /\ (forall i, BitSet.test i (excludedMask (masks q)) = true ->
                BitSet.test i (_componentsBitSet o) = false).
Proof.
  intros Hw Hq He Ho.
  rewrite <- matches_spec.
  - pose proof (reachable_inv _ Hw) as [_ _ Hok _].
    rewrite (Hok q e Hq I). unfold entityMatches. rewrite Ho.
    apply elem_of_liveEntities in He. tauto.
  - apply (storage_bits _ (inv_storage _ (reachable_inv _ Hw)) _ _ Ho).
  - by apply (reachable_masks_wf w).
Qed.

(** ** Scenarios of the specification, evaluated *)

(** Basic qualify and disqualify: with the query over Position and
    Velocity, adding Position does not match, adding Velocity qualifies
    once, removing Position disqualifies once. *)
Example scenario_qualify_disqualify :
  let w1 := run [RegisterQuery movingBodies; CreateSpace; CreateEntity 0;
                 Add 0 "Position" []] World.new in
  let w2 := exec (Add 0 "Velocity" []) w1 in
  let w3 := exec (Remove 0 (Entity.Class "Position")) w2 in
  (results <$> queries w1) = [∅]
  /\ (results <$> queries w2) = [{[0]}]
  /\ emitted w1 w2 = [Qualify 0 bodiesMasks]
  /\ (results <$> queries w3) = [∅]
  /\ emitted w2 w3 = [Disqualify 0 bodiesMasks].
Proof. vm_compute. repeat split. Qed.

(** Any-of semantics: an entity with only C does not match [any: A, B];
    with A it does, with B instead of A it still does, without both it does
    not. *)
Example scenario_any_of :
  let q := mkQueryDescriptor [] ["A"; "B"] [] in
  let w0 := run [RegisterQuery q; CreateSpace; CreateEntity 0; Add 0 "C" []]
                World.new in
  let w1 := exec (Add 0 "A" []) w0 in
  let w2 := run [Remove 0 (Entity.Class "A"); Add 0 "B" []] w1 in
  let w3 := exec (Remove 0 (Entity.Class "B")) w2 in
  (results <$> queries w0) = [∅]
  /\ (results <$> queries w1) = [{[0]}]
  /\ (results <$> queries w2) = [{[0]}]
  /\ (results <$> queries w3) = [∅].
Proof. vm_compute. repeat split. Qed.

(** Excluded semantics: with [required: A, excluded: B], an entity with A
    matches, adding B disqualifies it, removing B requalifies it. *)
Example scenario_excluded :
  let q := mkQueryDescriptor ["A"] [] ["B"] in
  let w0 := run [RegisterQuery q; CreateSpace; CreateEntity 0; Add 0 "A" []]
                World.new in
  let w1 := exec (Add 0 "B" []) w0 in
  let w2 := exec (Remove 0 (Entity.Class "B")) w1 in
  (results <$> queries w0) = [{[0]}]
  /\ (results <$> queries w1) = [∅]
  /\ (results <$> queries w2) = [{[0]}]
  /\ length (emitted w0 w1) = 1 /\ length (emitted w1 w2) = 1.
Proof. vm_compute. repeat split. Qed.

(** Registration-time seeding: of three entities, the two that match are
    in the initial result set, and nothing is notified. *)
Example scenario_seeding :
  let w0 := run [CreateSpace; CreateEntity 0; CreateEntity 0; CreateEntity 0;
                 Add 0 "Position" []; Add 0 "Velocity" [];
                 Add 2 "Position" []; Add 2 "Velocity" [];
                 Add 1 "Position" []] World.new in
  let w1 := exec (RegisterQuery movingBodies) w0 in
  (results <$> queries w1) = [{[0; 2]}] /\ emitted w0 w1 = [].
Proof. vm_compute. repeat split. Qed.

(** Growth beyond one word: the bit of index 70 lives in the third word,
    and matching works across the word boundary. *)
Example scenario_beyond_one_word :
  BitSet.set 70 (BitSet.set 1 BitSet.empty) = [2%N; 0%N; 64%N]
  /\ BitSet.test 70 (BitSet.set 70 (BitSet.set 1 BitSet.empty)) = true
  /\ BitSet.test 69 (BitSet.set 70 (BitSet.set 1 BitSet.empty)) = false
  /\ BitSet.containsAll [2%N; 0%N; 64%N] (BitSet.ofIndices [70]) = true
  /\ BitSet.containsAll [2%N] (BitSet.ofIndices [70]) = false
  /\ BitSet.containsAny [2%N; 0%N; 64%N] [0%N; 0%N; 64%N; 0%N] = true
  /\ BitSet.containsNone [2%N] (BitSet.ofIndices [70]) = true.
Proof. vm_compute. repeat split. Qed.

(** ** Instances are constructed afresh *)

Lemma attached_alter w e f c :
  attached (withHeap (alter f e (heap w)) w) c ->
  attached w c
  \/ exists o i, heap w !! e = Some o /\ _components (f o) !! i = Some c.
Proof.
  intros (e' & o' & i & Ho' & Hc). simpl in Ho'.
  rewrite lookup_alter in Ho'. case_decide as E.
  - subst e'. destruct (heap w !! e) as [o|] eqn:Ho; [|done].
    injection Ho' as <-. right. by exists o, i.
  - left. by exists e', o', i.
Qed.

Lemma attached_ext w w' c :
  heap w' = heap w -> attached w' c <-> attached w c.
Proof. unfold attached. by intros ->. Qed.

Lemma InstancesFresh_ext w w' :
  heap w' = heap w -> nextInstance w' = nextInstance w ->
  InstancesFresh w -> InstancesFresh w'.
Proof.
  intros Hh Hn Hw c Hc. rewrite Hn. apply Hw. by apply (attached_ext w w').
Qed.

Lemma InstancesFresh_alter_sub w e f :
  (forall o i c, _components (f o) !! i = Some c ->
                 exists j, _components o !! j = Some c) ->
  InstancesFresh w -> InstancesFresh (withHeap (alter f e (heap w)) w).
Proof.
  intros Hf Hw c Hc. simpl.
  apply attached_alter in Hc as [Hc|(o & i & Ho & Hc)]; [by apply Hw|].
  apply Hf in Hc as (j & Hj). apply Hw. by exists e, o, j.
Qed.

Lemma removeComponentFromEntity_fresh e c w :
  InstancesFresh w -> InstancesFresh (SpaceManager.removeComponentFromEntity e c w).
Proof.
  intros Hw. unfold SpaceManager.removeComponentFromEntity.
  destruct (ComponentRegistry.componentIndex _ _) as [ix|]; [|done].
  apply InstancesFresh_alter_sub; [|done].
  intros o i c' Hc'. simpl in Hc'. exists i.
  rewrite lookup_delete in Hc'. by case_decide.
Qed.

Lemma removeAll_fresh e cs w :
  InstancesFresh w ->
  InstancesFresh (foldr (SpaceManager.removeComponentFromEntity e) w cs).
Proof.
  intros Hw. induction cs as [|c cs IH]; simpl; [done|].
  by apply removeComponentFromEntity_fresh.
Qed.

Lemma addComponentToEntity_fresh e clazz args w :
  InstancesFresh w ->
  InstancesFresh (SpaceManager.addComponentToEntity e clazz args w).2.
Proof.
  intros Hw. unfold SpaceManager.addComponentToEntity. cbn [snd].
  set (r := ComponentRegistry.registerType clazz w).
  set (c0 := mkComponent clazz (nextInstance r.2) e args).
  assert (Hr : InstancesFresh r.2).
  { apply (InstancesFresh_ext w); [apply registerType_heap| |done].
    apply registerType_nextInstance. }
  intros c Hc.
  change (instanceId c < S (nextInstance r.2)).
  apply (attached_ext (withHeap (alter (attach r.1 c0) e (heap r.2)) r.2))
    in Hc; [|done].
  apply attached_alter in Hc as [Hc|(o & i & Ho & Hc)].
  - apply Hr in Hc. lia.
  - simpl in Hc. rewrite lookup_insert in Hc. case_decide as E.
    + injection Hc as <-. simpl. lia.
    + assert (instanceId c < nextInstance r.2); [|lia].
      apply Hr. by exists e, o, i.
Qed.

Lemma exec_fresh c w : InstancesFresh w -> InstancesFresh (exec c w).
Proof.
  intros Hw. destruct c; unfold exec.
  - unfold World.registerComponent, call. cbn [snd].
    destruct (registerType_same type w) as (Hh & _ & _ & _ & _ & _ & Hn).
    by apply (InstancesFresh_ext w).
  - unfold World.registerQuery, call. cbn [snd].
    destruct (compile_same d w) as (Hh & _ & _ & _ & _ & _ & Hn).
    unfold registerQuery. case_bool_decide; by apply (InstancesFresh_ext w).
  - by apply (InstancesFresh_ext w).
  - destruct (spaces w !! s) as [es|] eqn:Hs;
      [|unfold Space.createEntity; by rewrite Hs].
    rewrite (createEntity_unfold _ _ _ Hs).
    apply InstancesFresh_alter_sub; [by eauto|].
    eapply InstancesFresh_ext; [apply onEntityComponentChange_heap| |].
    { apply onEntityComponentChange_frame. }
    apply (InstancesFresh_ext (withHeap (alter (place s) (nextId w)
                                           (heap (Entity.new w).2)) (Entity.new w).2));
      [done|done|].
    apply InstancesFresh_alter_sub; [by eauto|].
    intros c (e' & o' & i & Ho' & Hc). simpl in Ho'.
    rewrite lookup_insert in Ho'. case_decide as E.
    + injection Ho' as <-. simpl in Hc. by rewrite lookup_empty in Hc.
    + apply Hw. by exists e', o', i.
  - intros c (e' & o' & i & Ho' & Hc). simpl in Ho'.
    rewrite lookup_insert in Ho'. case_decide as E.
    + injection Ho' as <-. simpl in Hc. by rewrite lookup_empty in Hc.
    + apply Hw. by exists e', o', i.
  - destruct (heap w !! e) as [o|] eqn:Ho; [|by rewrite add_dangling].
    rewrite (add_spec _ _ _ _ _ Ho). destruct (truthy _); [done|].
    destruct (world o); [|done]. cbn [snd].
    eapply InstancesFresh_ext; [apply onEntityComponentChange_heap| |].
    { apply onEntityComponentChange_frame. }
    by apply addComponentToEntity_fresh.
  - destruct (heap w !! e) as [o|] eqn:Ho; [|by rewrite remove_dangling].
    rewrite (remove_spec _ _ _ _ Ho).
    destruct (removeTarget w o value) as [|c]; [done|].
    destruct (world o); [|done]. cbn [snd].
    eapply InstancesFresh_ext; [apply onEntityComponentChange_heap| |].
    { apply onEntityComponentChange_frame. }
    by apply removeComponentFromEntity_fresh.
  - destruct (heap w !! e) as [o|] eqn:Ho; [|by rewrite destroy_dangling].
    rewrite (destroy_spec _ _ _ Ho).
    destruct (space o) as [s|]; [|done]. destruct (world o); [|done]. cbn [snd].
    rewrite (destroyEntity_leave _ _ _ _ Ho).
    apply InstancesFresh_alter_sub; [by eauto|].
    apply (InstancesFresh_ext
             (foldr (SpaceManager.removeComponentFromEntity e) w (values o)));
      [done|done|].
    by apply removeAll_fresh.
Qed.

(** In a reachable world no attached instance bears the number of the next
    instance: the component [add] returns is not one that was attached
    before. *)
Lemma add_constructs_new_instance w c clazz e args :
  reachable w -> attached w c ->
  c <> mkComponent clazz (nextInstance w) e args.
Proof.
  intros Hw Hc ->.
  assert (Hfresh : InstancesFresh w).
  { clear Hc. induction Hw as [|c w _ IH]; [|by apply exec_fresh].
    intros c (e' & o' & i & Ho' & _). simpl in Ho'.
    by rewrite lookup_empty in Ho'. }
  apply Hfresh in Hc. simpl in Hc. lia.
Qed.

(** * Further properties of the entity methods *)

(** ** [getAll] *)

(** X1: on an entity object [getAll] returns, without throwing and without
    changing the world, a list that holds exactly the components stored in
    the component map, one per index; whatever [get] returns for a class is
    in that list. *)
Theorem getAll_lists_the_attached_components w this o :
  heap w !! this = Some o ->
  exists cs,
    Entity.getAll this w = (inr cs, w)
    /\ (forall c, c ∈ cs <-> exists ix, _components o !! ix = Some c)
    /\ length cs = size (_components o)
    /\ (forall value c, (Entity.get this value w).1 = inr c -> c ∈ cs).
Proof.
  intros Ho. exists (values o).
  assert (Hin : forall c, c ∈ values o <-> exists ix, _components o !! ix = Some c).
  { intros c. unfold values. rewrite list_elem_of_fmap. split.
    - intros ([ix c'] & -> & Hc). exists ix. by apply elem_of_map_to_list.
    - intros (ix & Hc). exists (ix, c). split; [done|].
      by apply elem_of_map_to_list. }
  split; [|split; [done|split]].
  - unfold_m. by rewrite Ho.
  - unfold values. by rewrite length_fmap, length_map_to_list.
  - intros value c. rewrite (get_spec _ _ _ _ Ho).
    unfold componentAt.
    destruct (ComponentRegistry.componentIndex value w) as [ix|]; simpl; [|done].
    destruct (_components o !! ix) as [c'|] eqn:Hc; simpl; [|done].
    intros [= <-]. apply Hin. eauto.
Qed.

Lemma getAll_lists_the_attached_components_witness :
  heap demo !! 0 = Some entity0
  /\ exists cs,
       Entity.getAll 0 demo = (inr cs, demo)
       /\ length cs = 2 /\ position0 ∈ cs /\ velocity0 ∈ cs.
Proof.
  assert (H : heap demo !! 0 = Some entity0) by (vm_compute; reflexivity).
  destruct (getAll_lists_the_attached_components demo 0 entity0 H)
    as (cs & Hall & Hin & Hlen & Hget).
  split; [exact H|]. exists cs. split; [exact Hall|]. split; [|split].
  - rewrite Hlen. vm_compute. reflexivity.
  - apply (Hget "Position"). vm_compute. reflexivity.
  - apply (Hget "Velocity"). vm_compute. reflexivity.
Defined.

(** ** The guards of [add] and [remove], in terms of [has] *)

(** X2: on an entity object, [add] throws its already-has-this-component
    error, leaving the world as it was, exactly when [has] answers [true]
    for the class. *)
Theorem add_is_rejected_iff_has w this o clazz args :
  heap w !! this = Some o ->
  (Entity.has this clazz w).1 = inr true
  <-> Entity.add this clazz args w = (inl (CannotAddComponent clazz (id o)), w).
Proof.
  intros Ho. rewrite (has_spec _ _ _ _ Ho), (add_spec _ _ _ _ _ Ho). simpl.
  destruct (componentAt o _) as [c|]; simpl; [done|].
  split; [done|]. by destruct (world o).
Qed.

Lemma add_is_rejected_iff_has_witness :
  heap demo !! 0 = Some entity0
  /\ (Entity.has 0 "Velocity" demo).1 = inr true
  /\ Entity.add 0 "Velocity" [] demo = (inl (CannotAddComponent "Velocity" 0), demo).
Proof.
  assert (H : heap demo !! 0 = Some entity0) by (vm_compute; reflexivity).
  assert (Hhas : (Entity.has 0 "Velocity" demo).1 = inr true)
    by (vm_compute; reflexivity).
  split; [exact H|]. split; [exact Hhas|].
  exact (proj1 (add_is_rejected_iff_has demo 0 entity0 "Velocity" [] H) Hhas).
Defined.

(** X3: on an entity object, [remove] by class throws its
    does-not-exist error exactly when [has] answers [false] for the class,
    and [remove] by instance throws its instance-does-not-exist error
    exactly when [has] answers [false] for the class of the instance; the
    world is left as it was. *)
Theorem remove_is_rejected_iff_not_has w this o :
  heap w !! this = Some o ->
  (forall clazz,
      (Entity.has this clazz w).1 = inr false
      <-> Entity.remove this (Entity.Class clazz) w = (inl ComponentDoesNotExist, w))
  /\ (forall v,
      (Entity.has this (_class v) w).1 = inr false
      <-> Entity.remove this (Entity.Instance v) w
          = (inl ComponentInstanceDoesNotExist, w)).
Proof.
  intros Ho. split.
  - intros clazz. rewrite (has_spec _ _ _ _ Ho), (remove_spec _ _ _ _ Ho). simpl.
    destruct (componentAt o _) as [c|]; simpl; [|done].
    split; [done|]. by destruct (world o).
  - intros v. rewrite (has_spec _ _ _ _ Ho), (remove_spec _ _ _ _ Ho). simpl.
    destruct (componentAt o _) as [c|]; simpl; [|done].
    split; [done|]. by destruct (world o).
Qed.

Lemma remove_is_rejected_iff_not_has_witness :
  heap demo !! 0 = Some entity0
  /\ (Entity.has 0 "Health" demo).1 = inr false
  /\ Entity.remove 0 (Entity.Class "Health") demo = (inl ComponentDoesNotExist, demo)
  /\ Entity.remove 0 (Entity.Instance (mkComponent "Health" 9 0 [])) demo
     = (inl ComponentInstanceDoesNotExist, demo).
Proof.
  assert (H : heap demo !! 0 = Some entity0) by (vm_compute; reflexivity).
  assert (Hhas : (Entity.has 0 "Health" demo).1 = inr false)
    by (vm_compute; reflexivity).
  destruct (remove_is_rejected_iff_not_has demo 0 entity0 H) as (Hc & Hi).
  split; [exact H|]. split; [exact Hhas|]. split.
  - exact (proj1 (Hc "Health") Hhas).
  - exact (proj1 (Hi (mkComponent "Health" 9 0 [])) Hhas).
Defined.

(** X4: on an entity object that has no world (one made by
    [new Entity()], or one that was destroyed), every [add] and every
    [remove] throws and leaves the world as it was; for a class that is not
    present the error of [add] is the failed read of
    [this.world.spaceManager]. *)
Theorem add_remove_without_world w this o :
  heap w !! this = Some o -> world o = None ->
  (forall clazz args, exists err, Entity.add this clazz args w = (inl err, w))
  /\ (forall value, exists err, Entity.remove this value w = (inl err, w))
  /\ (forall clazz args,
        (Entity.has this clazz w).1 = inr false ->
        Entity.add this clazz args w = (inl TypeError, w)).
Proof.
  intros Ho Hw. repeat split.
  - intros clazz args. rewrite (add_spec _ _ _ _ _ Ho), Hw.
    destruct (truthy _); by eexists.
  - intros value. rewrite (remove_spec _ _ _ _ Ho), Hw.
    destruct (removeTarget w o value); by eexists.
  - intros clazz args. rewrite (has_spec _ _ _ _ Ho), (add_spec _ _ _ _ _ Ho), Hw.
    simpl. by destruct (componentAt o _).
Qed.

Lemma add_remove_without_world_witness :
  heap (exec NewEntity demo) !! 2
  = Some (mkEntity 2 false None None BitSet.empty ∅)
  /\ Entity.add 2 "Position" [] (exec NewEntity demo)
     = (inl TypeError, exec NewEntity demo)
  /\ exists err, Entity.remove 2 (Entity.Class "Position") (exec NewEntity demo)
                 = (inl err, exec NewEntity demo).
Proof.
  assert (H : heap (exec NewEntity demo) !! 2
              = Some (mkEntity 2 false None None BitSet.empty ∅))
    by (vm_compute; reflexivity).
  destruct (add_remove_without_world (exec NewEntity demo) 2 _ H eq_refl)
    as (_ & Hremove & Hadd).
  split; [exact H|]. split.
  - apply Hadd. vm_compute. reflexivity.
  - apply Hremove.
Defined.

(** ** Entities found through a query have the required components *)

Lemma registerTypes_indices types w t :
  t ∈ types ->
  exists ix, componentIndices (ComponentRegistry.registerTypes types w).2 !! t = Some ix
             /\ ix ∈ (ComponentRegistry.registerTypes types w).1.
Proof.
  revert w. induction types as [|t0 ts IH]; intros w Ht; [by apply elem_of_nil in Ht|].
  simpl. apply elem_of_cons in Ht as [->|Ht].
  - exists (ComponentRegistry.registerType t0 w).1. split.
    + apply registerTypes_stable, registerType_index.
    + apply elem_of_cons. by left.
  - destruct (IH (ComponentRegistry.registerType t0 w).2 Ht) as (ix & Hix & Hin).
    exists ix. split; [done|]. apply elem_of_cons. by right.
Qed.

Lemma compile_required_bit d w t :
  t ∈ required d ->
  exists ix, componentIndices (QueryManager.compile d w).2 !! t = Some ix
             /\ BitSet.test ix (requiredMask (QueryManager.compile d w).1) = true.
Proof.
  intros Ht. unfold QueryManager.compile. cbn [fst snd requiredMask].
  destruct (registerTypes_indices (required d) w t Ht) as (ix & Hix & Hin).
  exists ix. split.
  - by do 2 apply registerTypes_stable.
  - rewrite BitSetFacts.test_ofIndices. by apply bool_decide_eq_true_2.
Qed.

Lemma registerQuery_registry d w :
  componentIndices (registerQuery d w).2
  = componentIndices (QueryManager.compile d w).2
  /\ (registerQuery d w).1 = (QueryManager.compile d w).1.
Proof. unfold registerQuery. by case_bool_decide. Qed.

Lemma result_member_has_bit w q e type ix :
  reachable w -> q ∈ queries w -> e ∈ results q ->
  ComponentRegistry.componentIndex type w = Some ix ->
  BitSet.test ix (requiredMask (masks q)) = true ->
  exists c, Entity.get e type w = (inr c, w)
            /\ Entity.has e type w = (inr true, w).
Proof.
  intros Hw Hq He Hix Hbit.
  pose proof (reachable_masks_wf w q Hw Hq) as (Hwf & _ & _).
  pose proof (reachable_inv _ Hw) as [_ Hst Hok _].
  apply (Hok q e Hq I) in He as [_ Hm].
  unfold entityMatches in Hm. destruct (heap w !! e) as [o|] eqn:Ho; [|done].
  unfold QueryManager.matches in Hm.
  apply andb_true_iff in Hm as [Hm _]. apply andb_true_iff in Hm as [Hm _].
  unfold BitSet.containsAll in Hm.
  rewrite BitSetFacts.isSubsetOf_spec in Hm by done. specialize (Hm ix Hbit).
  destruct (storage_bits _ Hst _ _ Ho) as [_ Hagree].
  rewrite Hagree in Hm. apply bool_decide_eq_true in Hm as [c Hc].
  exists c. rewrite (get_spec _ _ _ _ Ho), (has_spec _ _ _ _ Ho), Hix. simpl.
  by rewrite Hc.
Qed.

Lemma registered_query_member w d type cs q e :
  reachable w -> type ∈ required d ->
  q ∈ queries (run cs (registerQuery d w).2) ->
  masks q = (registerQuery d w).1 ->
  e ∈ results q ->
  exists c, Entity.get e type (run cs (registerQuery d w).2)
            = (inr c, run cs (registerQuery d w).2)
            /\ Entity.has e type (run cs (registerQuery d w).2)
               = (inr true, run cs (registerQuery d w).2).
Proof.
  intros Hw Ht Hq Hm He.
  destruct (compile_required_bit d w type Ht) as (ix & Hix & Hbit).
  destruct (registerQuery_registry d w) as (Hreg & Hmasks).
  apply (result_member_has_bit _ q e type ix); try done.
  - apply reachable_run. apply (reachable_exec (RegisterQuery d) w Hw).
  - apply run_stable. by rewrite Hreg.
  - by rewrite Hm, Hmasks.
Qed.

(** X5: once a query that requires a component class has been registered,
    every entity found in the result set of that query, after any further
    calls, has the class: [get] returns a component without throwing and
    [has] answers [true].  (Systems call [entity.get] on the entities of
    their query results without a check.) *)
Theorem result_members_have_the_required_components w d type cs q e :
  reachable w -> type ∈ required d ->
  q ∈ queries (run cs (registerQuery d w).2) ->
  masks q = (registerQuery d w).1 ->
  e ∈ results q ->
  exists c, Entity.get e type (run cs (registerQuery d w).2)
            = (inr c, run cs (registerQuery d w).2)
            /\ Entity.has e type (run cs (registerQuery d w).2)
               = (inr true, run cs (registerQuery d w).2).
Proof. apply registered_query_member. Qed.

Lemma result_members_have_the_required_components_witness :
  reachable World.new
  /\ "Velocity" ∈ required movingBodies
  /\ mkQuery bodiesMasks {[0]}
     ∈ queries (run [CreateSpace; CreateEntity 0; Add 0 "Velocity" [1%Z];
                     Add 0 "Position" []]
                    (registerQuery movingBodies World.new).2)
  /\ bodiesMasks = (registerQuery movingBodies World.new).1
  /\ exists c, Entity.get 0 "Velocity"
                 (run [CreateSpace; CreateEntity 0; Add 0 "Velocity" [1%Z];
                       Add 0 "Position" []]
                      (registerQuery movingBodies World.new).2)
               = (inr c,
                  run [CreateSpace; CreateEntity 0; Add 0 "Velocity" [1%Z];
                       Add 0 "Position" []]
                      (registerQuery movingBodies World.new).2).
Proof.
  assert (Ht : "Velocity" ∈ required movingBodies).
  { apply (list_elem_of_lookup_2 _ 1). reflexivity. }
  assert (Hq : mkQuery bodiesMasks {[0]}
     ∈ queries (run [CreateSpace; CreateEntity 0; Add 0 "Velocity" [1%Z];
                     Add 0 "Position" []]
                    (registerQuery movingBodies World.new).2)).
  { apply (list_elem_of_lookup_2 _ 0). vm_compute. reflexivity. }
  assert (Hm : bodiesMasks = (registerQuery movingBodies World.new).1)
    by (vm_compute; reflexivity).
  assert (He : 0 ∈ results (mkQuery bodiesMasks {[0]})).
  { apply (bool_decide_eq_true_1 _). vm_compute. reflexivity. }
  destruct (result_members_have_the_required_components World.new movingBodies
              "Velocity" _ _ 0 reachable_new Ht Hq Hm He) as (c & Hget & _).
  split; [apply reachable_new|]. split; [exact Ht|]. split; [exact Hq|].
  split; [exact Hm|]. exists c. exact Hget.
Defined.

(** ** Where components come from *)

Lemma removeComponentFromEntity_components_sub e c0 w e' o' i c :
  heap (SpaceManager.removeComponentFromEntity e c0 w) !! e' = Some o' ->
  _components o' !! i = Some c ->
  exists o, heap w !! e' = Some o /\ _components o !! i = Some c.
Proof.
  unfold SpaceManager.removeComponentFromEntity.
  destruct (ComponentRegistry.componentIndex _ _) as [ix|]; [|by eauto].
  simpl. rewrite lookup_alter. case_decide as E; [|by eauto].
  subst e'. destruct (heap w !! e) as [o|]; [|done].
  intros [= <-]. simpl. rewrite lookup_delete.
  case_decide; [done|]. by eauto.
Qed.

Lemma removeAll_components_sub e cs w e' o' i c :
  heap (foldr (SpaceManager.removeComponentFromEntity e) w cs) !! e' = Some o' ->
  _components o' !! i = Some c ->
  exists o, heap w !! e' = Some o /\ _components o !! i = Some c.
Proof.
  revert o'. induction cs as [|c0 cs IH]; intros o' Ho' Hc; [by eauto|].
  simpl in Ho'.
  destruct (removeComponentFromEntity_components_sub _ _ _ _ _ _ _ Ho' Hc)
    as (o1 & Ho1 & Hc1).
  by eapply IH.
Qed.

(** After a call, a component attached to an entity at an index was
    attached to that entity at that index before the call, or it is the
    component this very call of [add] constructed. *)
Lemma exec_components c w e o' i comp :
  heap (exec c w) !! e = Some o' -> _components o' !! i = Some comp ->
  (exists o, heap w !! e = Some o /\ _components o !! i = Some comp)
  \/ (exists clazz args,
        c = Add e clazz args
        /\ comp = mkComponent clazz (nextInstance w) e args
        /\ componentIndices (exec c w) !! clazz = Some i).
Proof.
  destruct c; unfold exec.
  - unfold World.registerComponent, call. cbn [snd].
    rewrite registerType_heap. by eauto.
  - unfold World.registerQuery, call. cbn [snd].
    destruct (compile_same d w) as (Hh & _).
    assert (heap (registerQuery d w).2 = heap w) as ->.
    { unfold registerQuery. by case_bool_decide. }
    by eauto.
  - by eauto.
  - destruct (spaces w !! s) as [es|] eqn:Hs;
      [|unfold Space.createEntity; rewrite Hs; by eauto].
    rewrite (createEntity_unfold _ _ _ Hs). intros Ho' Hc. left.
    assert (Ho'' : alter initialise (nextId w)
                     (heap (QueryManager.onEntityComponentChange (nextId w)
                              (Space.enter (nextId w) s es (Entity.new w).2)))
                   !! e = Some o') by exact Ho'.
    rewrite onEntityComponentChange_heap in Ho''.
    assert (Ho3 : alter initialise (nextId w)
                    (alter (place s) (nextId w)
                       (<[nextId w := mkEntity (nextId w) false None None
                                               BitSet.empty ∅]> (heap w)))
                  !! e = Some o') by exact Ho''.
    rewrite !lookup_alter in Ho3. case_decide as E.
    + subst e. rewrite lookup_insert_eq in Ho3.
      rewrite decide_True in Ho3 by done. simpl in Ho3.
      injection Ho3 as <-. simpl in Hc. by rewrite lookup_empty in Hc.
    + rewrite lookup_insert_ne in Ho3 by done. by eauto.
  - simpl. rewrite lookup_insert. case_decide as E; [|by eauto].
    intros [= <-]. simpl. by rewrite lookup_empty.
  - destruct (heap w !! e0) as [o|] eqn:Ho;
      [|rewrite add_dangling by done; by eauto].
    rewrite (add_spec _ _ _ _ _ Ho). destruct (truthy _); [by eauto|].
    destruct (world o); [|by eauto]. cbn [snd].
    rewrite onEntityComponentChange_heap, onEntityComponentChange_registry.
    intros Ho' Hc.
    set (r := ComponentRegistry.registerType clazz w) in *.
    assert (Ho'' : alter (attach r.1 (mkComponent clazz (nextInstance r.2) e0 args))
                     e0 (heap r.2) !! e = Some o') by exact Ho'.
    assert (Hreg : componentIndices
                     (SpaceManager.addComponentToEntity e0 clazz args w).2
                   = componentIndices r.2) by done.
    rewrite Hreg. unfold r in Ho''.
    rewrite registerType_heap, registerType_nextInstance, lookup_alter in Ho''.
    case_decide as E; [|by eauto]. subst e0. rewrite Ho in Ho''.
    injection Ho'' as <-. simpl in Hc.
    rewrite lookup_insert in Hc. case_decide as Ei; [|by eauto].
    injection Hc as <-. right. exists clazz, args.
    split; [done|]. split; [done|]. rewrite <- Ei. apply registerType_index.
  - destruct (heap w !! e0) as [o|] eqn:Ho;
      [|rewrite remove_dangling by done; by eauto].
    rewrite (remove_spec _ _ _ _ Ho).
    destruct (removeTarget w o value) as [|c]; [by eauto|].
    destruct (world o); [|by eauto]. cbn [snd].
    rewrite onEntityComponentChange_heap. intros Ho' Hc. left.
    by apply (removeComponentFromEntity_components_sub e0 c w e o' i comp).
  - destruct (heap w !! e0) as [o|] eqn:Ho;
      [|rewrite destroy_dangling by done; by eauto].
    rewrite (destroy_spec _ _ _ Ho).
    destruct (space o) as [s|]; [|by eauto]. destruct (world o); [|by eauto].
    cbn [snd]. rewrite (destroyEntity_leave _ _ _ _ Ho). intros Ho' Hc. left.
    set (w1 := foldr (SpaceManager.removeComponentFromEntity e0) w (values o)) in *.
    assert (Ho'' : alter orphan e0 (heap w1) !! e = Some o') by exact Ho'.
    rewrite lookup_alter in Ho''. case_decide as E.
    + subst e0. destruct (heap w1 !! e) as [o1|] eqn:Ho1; [|done].
      injection Ho'' as <-.
      by apply (removeAll_components_sub e (values o) w e o1).
    + by apply (removeAll_components_sub e0 (values o) w e o').
Qed.

Lemma reachable_classIndexed w : reachable w -> ClassIndexed w.
Proof.
  induction 1 as [|c w _ IH].
  - intros e o i comp Ho. simpl in Ho. by rewrite lookup_empty in Ho.
  - intros e o' i comp Ho' Hc.
    destruct (exec_components c w e o' i comp Ho' Hc)
      as [(o & Ho & Hco)|(clazz & args & -> & -> & Hix)]; [|done].
    by eapply exec_stable, IH.
Qed.

(** ** Destroying an entity *)

Lemma removeAll_deletes e cs w c i o1 :
  c ∈ cs -> componentIndices w !! _class c = Some i ->
  heap (foldr (SpaceManager.removeComponentFromEntity e) w cs) !! e = Some o1 ->
  _components o1 !! i = None.
Proof.
  intros Hc Hi. revert o1. induction cs as [|c0 cs IH]; intros o1 Ho1;
    [by apply elem_of_nil in Hc|].
  simpl in Ho1.
  set (w' := foldr (SpaceManager.removeComponentFromEntity e) w cs) in *.
  apply elem_of_cons in Hc as [<-|Hc].
  - unfold SpaceManager.removeComponentFromEntity in Ho1.
    unfold ComponentRegistry.componentIndex in Ho1.
    destruct (removeAll_frame e cs w) as (_ & _ & _ & Hreg & _).
    fold w' in Hreg. rewrite Hreg, Hi in Ho1. simpl in Ho1.
    rewrite lookup_alter_eq in Ho1.
    destruct (heap w' !! e) as [o'|]; [|done].
    injection Ho1 as <-. simpl. apply lookup_delete_eq.
  - destruct (_components o1 !! i) as [c'|] eqn:Hc'; [|done].
    destruct (removeComponentFromEntity_components_sub _ _ _ _ _ _ _ Ho1 Hc')
      as (o' & Ho' & Hco').
    by rewrite (IH Hc o' Ho') in Hco'.
Qed.

Lemma removeAll_empties e w o :
  ClassIndexed w -> heap w !! e = Some o ->
  exists o1,
    heap (foldr (SpaceManager.removeComponentFromEntity e) w (values o)) !! e
    = Some o1
    /\ _components o1 = ∅ /\ space o1 = space o /\ world o1 = world o.
Proof.
  intros Hci Ho.
  destruct (removeAll_space e (values o) w o Ho) as (o1 & Ho1 & Hs & Hw).
  exists o1. split; [done|]. split; [|done].
  apply map_empty. intros i.
  destruct (_components o1 !! i) as [c|] eqn:Hc; [|done].
  destruct (removeAll_components_sub _ _ _ _ _ _ _ Ho1 Hc) as (o' & Ho' & Hco').
  assert (o' = o) as -> by congruence.
  rewrite (removeAll_deletes e (values o) w c i o1) in Hc; [done| | |done].
  - unfold values. apply list_elem_of_fmap. exists (i, c). split; [done|].
    by apply elem_of_map_to_list.
  - by apply (Hci e o).
Qed.

(** X6: in a reachable world, [destroy] of an entity that has a space and
    a world returns and leaves the entity with no component at all
    ([getAll] is empty and [has] is false for every class), outside the
    live entities, outside every query result, and without space or world,
    so that every later [add] on it throws. *)
Theorem destroy_detaches_everything w this o s :
  reachable w -> heap w !! this = Some o ->
  space o = Some s -> world o = Some tt ->
  Entity.destroy this w = (inr tt, (Entity.destroy this w).2)
  /\ Entity.getAll this (Entity.destroy this w).2
     = (inr [], (Entity.destroy this w).2)
  /\ (forall clazz,
        Entity.has this clazz (Entity.destroy this w).2
        = (inr false, (Entity.destroy this w).2))
  /\ (this ∉ liveEntities (Entity.destroy this w).2)
  /\ (forall q, q ∈ queries (Entity.destroy this w).2 -> this ∉ results q)
  /\ (forall clazz args,
        Entity.add this clazz args (Entity.destroy this w).2
        = (inl TypeError, (Entity.destroy this w).2)).
Proof.
  intros Hw Ho Hs Hwo.
  pose proof (reachable_inv _ Hw) as [_ Hst _ _].
  pose proof (reachable_classIndexed _ Hw) as Hci.
  rewrite (destroy_spec _ _ _ Ho), Hs, Hwo. cbn [snd].
  rewrite (destroyEntity_leave _ _ _ _ Ho).
  destruct (removeAll_empties this w o Hci Ho) as (o1 & Ho1 & Hempty & Hs1 & Hw1).
  set (w1 := foldr (SpaceManager.removeComponentFromEntity this) w (values o)) in *.
  assert (Hst1 : StorageInv w1) by (by apply removeAll_storage).
  assert (Ho' : heap (SpaceManager.leave this s w1) !! this = Some (orphan o1)).
  { simpl. by rewrite lookup_alter_eq, Ho1. }
  split; [done|]. split; [|split; [|split; [|split]]].
  - unfold_m. rewrite Ho'. unfold values. simpl.
    by rewrite Hempty, map_to_list_empty.
  - intros clazz. rewrite (has_spec _ _ _ _ Ho'). unfold componentAt. simpl.
    rewrite Hempty. by destruct (ComponentRegistry.componentIndex _ _).
  - rewrite elem_of_liveEntities. eapply leave_not_live; [done| |done]. congruence.
  - intros q Hq. simpl in Hq. rewrite <- list_fmap_compose in Hq.
    apply list_elem_of_fmap in Hq as (q0 & -> & _). apply deregister_self.
  - intros clazz args. rewrite (add_spec _ _ _ _ _ Ho'). unfold componentAt. simpl.
    rewrite Hempty. by destruct (ComponentRegistry.componentIndex _ _).
Qed.

Lemma destroy_detaches_everything_witness :
  reachable demo /\ heap demo !! 0 = Some entity0
  /\ Entity.getAll 0 (Entity.destroy 0 demo).2 = (inr [], (Entity.destroy 0 demo).2)
  /\ (0 ∉ liveEntities (Entity.destroy 0 demo).2)
  /\ Entity.add 0 "Position" [] (Entity.destroy 0 demo).2
     = (inl TypeError, (Entity.destroy 0 demo).2).
Proof.
  assert (Hr : reachable demo).
  { apply (reachable_exec _ setup), reachable_run, reachable_new. }
  assert (H : heap demo !! 0 = Some entity0) by (vm_compute; reflexivity).
  destruct (destroy_detaches_everything demo 0 entity0 0 Hr H eq_refl eq_refl)
    as (_ & Hall & _ & Hlive & _ & Hadd).
  split; [exact Hr|]. split; [exact H|]. split; [exact Hall|].
  split; [exact Hlive|]. apply Hadd.
Defined.

(** ** Adding and removing a component *)

Lemma matches_bits b b' q :
  BitSet.wf b -> BitSet.wf b' -> MasksWf q ->
  (forall i, BitSet.test i b = BitSet.test i b') ->
  QueryManager.matches b q = QueryManager.matches b' q.
Proof.
  intros Hb Hb' Hq Hbits.
  assert (Himp : forall b1 b2, BitSet.wf b1 -> BitSet.wf b2 ->
                   (forall i, BitSet.test i b1 = BitSet.test i b2) ->
                   QueryManager.matches b1 q = true ->
                   QueryManager.matches b2 q = true).
  { intros b1 b2 H1 H2 Heq. rewrite !matches_spec by done.
    intros (Hr & Ha & Hx). repeat split.
    - intros i Hi. rewrite <- Heq. by apply Hr.
    - destruct Ha as [Ha|(i & Hi1 & Hi2)]; [by left|].
      right. exists i. by rewrite <- Heq.
    - intros i Hi. rewrite <- Heq. by apply Hx. }
  destruct (QueryManager.matches b q) eqn:E1,
           (QueryManager.matches b' q) eqn:E2; try done.
  - by rewrite (Himp b b' Hb Hb' Hbits E1) in E2.
  - assert (forall i, BitSet.test i b' = BitSet.test i b) as Hsym by done.
    by rewrite (Himp b' b Hb' Hb Hsym E2) in E1.
Qed.

(** In a reachable world no component is stored at the index a class that
    is not present would get. *)
Lemma absent_class_slot_free w this o clazz :
  reachable w -> heap w !! this = Some o ->
  componentAt o (ComponentRegistry.componentIndex clazz w) = None ->
  _components o !! (ComponentRegistry.registerType clazz w).1 = None.
Proof.
  intros Hw Ho Habs. unfold ComponentRegistry.registerType.
  unfold ComponentRegistry.componentIndex in Habs.
  destruct (componentIndices w !! clazz) as [j|] eqn:E; simpl in *; [done|].
  destruct (_components o !! nextIndex w) as [c|] eqn:Hc; [|done].
  pose proof (reachable_classIndexed _ Hw _ _ _ _ Ho Hc) as Hix.
  apply (registry_bound _ (inv_registry _ (reachable_inv _ Hw))) in Hix. lia.
Qed.

Lemma registerType_other type w t :
  t <> type ->
  componentIndices (ComponentRegistry.registerType type w).2 !! t
  = componentIndices w !! t.
Proof.
  intros Hne. unfold ComponentRegistry.registerType.
  destruct (componentIndices w !! type); simpl; [done|].
  by rewrite lookup_insert_ne.
Qed.

(** X7: in a reachable world, on an entity that has a world, [add] of a
    class that is not present followed by [remove] of that class returns
    the entity, brings the component map back to what it was (so [find],
    [get] and [has] answer for every class as before the two calls), and
    leaves every query with the result set it had. *)
Theorem add_then_remove_restores w this o clazz args :
  reachable w -> heap w !! this = Some o -> world o = Some tt ->
  (Entity.has this clazz w).1 = inr false ->
  (Entity.remove this (Entity.Class clazz) (Entity.add this clazz args w).2).1
  = inr this
  /\ (exists o2,
        heap (Entity.remove this (Entity.Class clazz)
                (Entity.add this clazz args w).2).2 !! this = Some o2
        /\ _components o2 = _components o)
  /\ (forall type,
        (Entity.find this type
           (Entity.remove this (Entity.Class clazz)
              (Entity.add this clazz args w).2).2).1
        = (Entity.find this type w).1)
  /\ (forall q2,
        q2 ∈ queries (Entity.remove this (Entity.Class clazz)
                        (Entity.add this clazz args w).2).2 ->
        exists q, q ∈ queries w /\ masks q = masks q2 /\ results q = results q2).
Proof.
  intros Hw Ho Hwo Hhas.
  rewrite (has_spec _ _ _ _ Ho) in Hhas. simpl in Hhas.
  assert (Habs : componentAt o (ComponentRegistry.componentIndex clazz w) = None).
  { destruct (componentAt o _); [done|done]. }
  pose proof (absent_class_slot_free w this o clazz Hw Ho Habs) as Hfree.
  assert (Hr2 : reachable (Entity.remove this (Entity.Class clazz)
                             (Entity.add this clazz args w).2).2).
  { apply (reachable_exec (Remove this (Entity.Class clazz))).
    apply (reachable_exec (Add this clazz args) w Hw). }
  revert Hr2.
  rewrite (add_spec _ _ _ _ _ Ho), Habs, Hwo. cbn [truthy snd].
  set (r := ComponentRegistry.registerType clazz w) in *.
  assert (Hrh : heap r.2 = heap w) by apply registerType_heap.
  set (c := mkComponent clazz (nextInstance r.2) this args).
  set (wa := (SpaceManager.addComponentToEntity this clazz args w).2).
  set (w1 := QueryManager.onEntityComponentChange this wa).
  assert (Hreg1 : componentIndices w1 = componentIndices r.2).
  { unfold w1. by rewrite onEntityComponentChange_registry. }
  assert (Ho1 : heap w1 !! this = Some (attach r.1 c o)).
  { unfold w1. rewrite onEntityComponentChange_heap. unfold wa. simpl.
    fold r. by rewrite lookup_alter_eq, Hrh, Ho. }
  assert (Hix : ComponentRegistry.componentIndex clazz w1 = Some r.1).
  { unfold ComponentRegistry.componentIndex. rewrite Hreg1.
    apply registerType_index. }
  rewrite (remove_spec _ _ _ _ Ho1). unfold removeTarget. rewrite Hix.
  assert (Hat : componentAt (attach r.1 c o) (Some r.1) = Some c).
  { simpl. by rewrite lookup_insert_eq. }
  rewrite Hat. simpl world. rewrite Hwo. cbn [fst snd].
  set (wr := SpaceManager.removeComponentFromEntity this c w1).
  set (w2 := QueryManager.onEntityComponentChange this wr).
  assert (Hwr : wr = withHeap (alter (detach r.1) this (heap w1)) w1).
  { unfold wr, SpaceManager.removeComponentFromEntity.
    change (_class c) with clazz. by rewrite Hix. }
  assert (Ho2 : heap w2 !! this = Some (detach r.1 (attach r.1 c o))).
  { unfold w2. rewrite onEntityComponentChange_heap, Hwr. simpl.
    by rewrite lookup_alter_eq, Ho1. }
  assert (Hcomps : _components (detach r.1 (attach r.1 c o)) = _components o).
  { simpl. by apply delete_insert_id. }
  assert (Hreg2 : componentIndices w2 = componentIndices r.2).
  { unfold w2. rewrite onEntityComponentChange_registry, Hwr. done. }
  assert (Hother : forall e', e' <> this -> heap w2 !! e' = heap w !! e').
  { intros e' Hne. unfold w2. rewrite onEntityComponentChange_heap, Hwr. simpl.
    rewrite lookup_alter_ne by done. unfold w1.
    rewrite onEntityComponentChange_heap. unfold wa. simpl. fold r.
    by rewrite lookup_alter_ne, Hrh. }
  assert (Hspaces : spaces w2 = spaces w).
  { unfold w2. rewrite onEntityComponentChange_spaces, Hwr. simpl. unfold w1.
    rewrite onEntityComponentChange_spaces. unfold wa. simpl.
    apply registerType_spaces. }
  assert (Hmasks : masks <$> queries w2 = masks <$> queries w).
  { unfold w2. rewrite onEntityComponentChange_masks, Hwr. simpl. unfold w1.
    rewrite onEntityComponentChange_masks. unfold wa. simpl.
    by rewrite registerType_queries. }
  intros Hr2. split; [done|]. split; [by eauto|]. split.
  - intros type. rewrite (find_spec _ _ _ _ Ho2), (find_spec _ _ _ _ Ho). simpl.
    f_equal. unfold ComponentRegistry.componentIndex. rewrite Hreg2.
    destruct (decide (type = clazz)) as [->|Hne].
    + unfold r. rewrite registerType_index. simpl. fold r.
      rewrite lookup_delete_eq. symmetry. exact Habs.
    + unfold r. rewrite registerType_other by done.
      unfold componentAt. destruct (componentIndices w !! type) as [j|]; [|done].
      simpl. fold r. by rewrite delete_insert_id.
  - intros q2 Hq2.
    assert (Hm : masks q2 ∈ masks <$> queries w).
    { rewrite <- Hmasks. by apply list_elem_of_fmap_2. }
    apply list_elem_of_fmap in Hm as (q & Hmq & Hq).
    exists q. split; [done|]. split; [done|].
    apply set_eq. intros e'.
    rewrite (inv_results _ (reachable_inv _ Hw) q e' Hq I).
    rewrite (inv_results _ (reachable_inv _ Hr2) q2 e' Hq2 I).
    rewrite (live_ext w w2) by done. rewrite Hmq.
    enough (entityMatches w2 e' (masks q) = entityMatches w e' (masks q)) as ->
      by done.
    destruct (decide (e' = this)) as [->|Hne];
      [|by apply entityMatches_ext, Hother].
    unfold entityMatches. rewrite Ho2, Ho.
    pose proof (storage_bits _ (inv_storage _ (reachable_inv _ Hw)) _ _ Ho)
      as [Hwf Hagree].
    pose proof (storage_bits _ (inv_storage _ (reachable_inv _ Hr2)) _ _ Ho2)
      as [Hwf2 _].
    apply matches_bits; try done.
    + by apply (reachable_masks_wf w).
    + intros i. simpl.
      rewrite BitSetFacts.test_clear, BitSetFacts.test_set.
      destruct (decide (r.1 = i)) as [<-|Hi].
      * rewrite bool_decide_eq_true_2 by done. simpl.
        rewrite Hagree, Hfree. done.
      * by rewrite bool_decide_eq_false_2 by done.
Qed.

Lemma add_then_remove_restores_witness :
  reachable demo /\ heap demo !! 0 = Some entity0
  /\ (Entity.has 0 "Health" demo).1 = inr false
  /\ (Entity.remove 0 (Entity.Class "Health")
        (Entity.add 0 "Health" [3%Z] demo).2).1 = inr 0
  /\ (Entity.find 0 "Position"
        (Entity.remove 0 (Entity.Class "Health")
           (Entity.add 0 "Health" [3%Z] demo).2).2).1
     = (Entity.find 0 "Position" demo).1.
Proof.
  assert (Hr : reachable demo).
  { apply (reachable_exec _ setup), reachable_run, reachable_new. }
  assert (H : heap demo !! 0 = Some entity0) by (vm_compute; reflexivity).
  assert (Hhas : (Entity.has 0 "Health" demo).1 = inr false)
    by (vm_compute; reflexivity).
  destruct (add_then_remove_restores demo 0 entity0 "Health" [3%Z] Hr H eq_refl Hhas)
    as (Hret & _ & Hfind & _).
  split; [exact Hr|]. split; [exact H|]. split; [exact Hhas|].
  split; [exact Hret|]. apply Hfind.
Defined.

(** ** Entity ids *)





(** * The inventory system *)

Lemma findEntity_Some w target all r :
  InventorySystem.findEntity w target all = Some r ->
  r ∈ all /\ exists o, heap w !! r = Some o /\ id o = target.
Proof.
  unfold InventorySystem.findEntity. intros H.
  apply List.find_some in H as [Hin Hid]. split; [by apply list_elem_of_In|].
  destruct (heap w !! r) as [o|]; [|done].
  exists o. split; [done|]. by apply bool_decide_eq_true in Hid.
Qed.





(** X8: the handler of the inventory system never throws when it runs on
    the result set of the system's query [inventories: [Inventory]]: its
    unchecked [entity.get(Inventory)] always finds the component, after any
    calls made since the query was registered. *)
Theorem inventory_handler_never_throws w cs q e store :
  reachable w ->
  q ∈ queries (run cs (registerQuery InventorySystem.inventories w).2) ->
  masks q = (registerQuery InventorySystem.inventories w).1 ->
  (InventorySystem.onInventoryEvent (elements (results q)) e
     (run cs (registerQuery InventorySystem.inventories w).2) store).1
  = inr tt.
Proof.
  intros Hw Hq Hm. unfold InventorySystem.onInventoryEvent.
  destruct (InventorySystem.findEntity _ _ _) as [r|] eqn:E; [|done].
  apply findEntity_Some in E as (Hin & _). apply elem_of_elements in Hin.
  destruct (registered_query_member w InventorySystem.inventories
              InventorySystem.Inventory cs q r Hw) as (c & Hget & _); try done.
  { apply elem_of_cons. by left. }
  by rewrite Hget.
Qed.


(** X10: what the handler leaves alone: an event for an id that no entity
    of the results bears changes nothing and returns; when the entity is
    found but has no Inventory the error of [get] is thrown and nothing
    changes; otherwise only the inventory of the entity found is written,
    and in every inventory the counts of all other items stay as they
    were. *)
Theorem inventory_handler_frame all e w store :
  ((forall r o, r ∈ all -> heap w !! r = Some o -> id o <> InventorySystem.entity e) ->
   InventorySystem.onInventoryEvent all e w store = (inr tt, store))
  /\ (forall r err,
        InventorySystem.findEntity w (InventorySystem.entity e) all = Some r ->
        (Entity.get r InventorySystem.Inventory w).1 = inl err ->
        InventorySystem.onInventoryEvent all e w store = (inl err, store))
  /\ (forall r inv k,
        InventorySystem.findEntity w (InventorySystem.entity e) all = Some r ->
        (Entity.get r InventorySystem.Inventory w).1 = inr inv ->
        k <> instanceId inv ->
        (InventorySystem.onInventoryEvent all e w store).2 !! k = store !! k)
  /\ (forall inv other,
        other <> InventorySystem.item e ->
        InventorySystem.itemsOf
          (InventorySystem.onInventoryEvent all e w store).2 inv !! other
        = InventorySystem.itemsOf store inv !! other).
Proof.
  unfold InventorySystem.onInventoryEvent. repeat split.
  - intros Hnone.
    destruct (InventorySystem.findEntity _ _ _) as [r|] eqn:E; [|done].
    apply findEntity_Some in E as (Hin & o & Ho & Hid).
    by destruct (Hnone r o Hin Ho).
  - intros r err -> ->. done.
  - intros r inv k -> -> Hk. simpl. by rewrite lookup_insert_ne.
  - intros inv other Hne.
    destruct (InventorySystem.findEntity _ _ _) as [r|]; [|done].
    destruct (Entity.get r InventorySystem.Inventory w).1 as [err|inv0]; [done|].
    simpl. unfold InventorySystem.itemsOf at 1.
    destruct (decide (instanceId inv0 = instanceId inv)) as [Heq|Hneq].
    + rewrite Heq, lookup_insert_eq. simpl.
      unfold InventorySystem.updateItems.
      assert (InventorySystem.itemsOf store inv0 = InventorySystem.itemsOf store inv)
        as -> by (unfold InventorySystem.itemsOf; by rewrite Heq).
      destruct (_ <=? _)%Z.
      * by rewrite lookup_delete_ne.
      * by rewrite lookup_insert_ne.
    + by rewrite lookup_insert_ne.
Qed.




(** ** The inventory system, evaluated *)

Lemma inventory_handler_never_throws_witness :
  reachable World.new
  /\ mkQuery inventoryMasks {[0]} ∈ queries inventoryWorld
  /\ inventoryMasks = (registerQuery InventorySystem.inventories World.new).1
  /\ (InventorySystem.onInventoryEvent (elements (results (mkQuery inventoryMasks {[0]})))
        (addApples 2) inventoryWorld ∅).1 = inr tt.
Proof.
  assert (Hq : mkQuery inventoryMasks {[0]} ∈ queries inventoryWorld).
  { apply (list_elem_of_lookup_2 _ 0). vm_compute. reflexivity. }
  assert (Hm : inventoryMasks = (registerQuery InventorySystem.inventories World.new).1)
    by (vm_compute; reflexivity).
  split; [apply reachable_new|]. split; [exact Hq|]. split; [exact Hm|].
  exact (inventory_handler_never_throws World.new
           [CreateSpace; CreateEntity 0; Add 0 InventorySystem.Inventory []]
           (mkQuery inventoryMasks {[0]}) (addApples 2) ∅ reachable_new Hq Hm).
Defined.


Lemma inventory_handler_frame_witness :
  InventorySystem.onInventoryEvent [0]
    (InventorySystem.mkInventoryEvent InventorySystem.add 7 "apple" 1)
    inventoryWorld ∅ = (inr tt, ∅)
  /\ InventorySystem.itemsOf
       (InventorySystem.onInventoryEvent [0] (addApples 2) inventoryWorld
          {[0 := {["bomb" := 1%Z]}]}).2 playerInventory !! "bomb"
     = InventorySystem.itemsOf {[0 := {["bomb" := 1%Z]}]} playerInventory !! "bomb".
Proof.
  destruct (inventory_handler_frame [0]
              (InventorySystem.mkInventoryEvent InventorySystem.add 7 "apple" 1)
              inventoryWorld ∅) as (Hunknown & _).
  destruct (inventory_handler_frame [0] (addApples 2) inventoryWorld
              {[0 := {["bomb" := 1%Z]}]}) as (_ & _ & _ & Hitems).
  split.
  - apply Hunknown. intros r o Hin Ho.
    apply list_elem_of_singleton in Hin. subst r.
    assert (Hid : id <$> heap inventoryWorld !! 0 = Some 0)
      by (vm_compute; reflexivity).
    rewrite Ho in Hid. simpl in Hid. injection Hid as ->. discriminate.
  - apply Hitems. discriminate.
Defined.



(** * New entities *)

(** X13: an entity that was just made, by [new Entity()] or by the
    [createEntity] of an existing space, has no component: for every class
    [find] returns [undefined], [has] answers [false] and [get] throws its
    not-in-entity error, and [getAll] is empty (the first lines of the
    example in the documentation of the class). *)
Theorem new_entity_has_no_component w s es :
  spaces w !! s = Some es ->
  (Space.createEntity s w).1 = inr (nextId w)
  /\ (forall w',
        w' = (Entity.new w).2 \/ w' = (Space.createEntity s w).2 ->
        Entity.getAll (nextId w) w' = (inr [], w')
        /\ forall clazz,
             Entity.find (nextId w) clazz w' = (inr None, w')
             /\ Entity.has (nextId w) clazz w' = (inr false, w')
             /\ Entity.get (nextId w) clazz w'
                = (inl (ComponentNotInEntity clazz (nextId w)), w')).
Proof.
  intros Hs. split; [unfold Space.createEntity; by rewrite Hs|].
  intros w' Hw'.
  assert (exists o, heap w' !! nextId w = Some o
                    /\ _components o = ∅ /\ id o = nextId w) as (o & Ho & Hc & Hid).
  { destruct Hw' as [->| ->].
    - eexists. simpl. rewrite lookup_insert_eq. by eauto.
    - rewrite (createEntity_unfold _ _ _ Hs).
      assert (heap (withHeap (alter initialise (nextId w)
                      (heap (QueryManager.onEntityComponentChange (nextId w)
                               (Space.enter (nextId w) s es (Entity.new w).2))))
                      (QueryManager.onEntityComponentChange (nextId w)
                         (Space.enter (nextId w) s es (Entity.new w).2)))
              = alter initialise (nextId w)
                  (alter (place s) (nextId w)
                     (<[nextId w := mkEntity (nextId w) false None None
                                             BitSet.empty ∅]> (heap w)))) as ->.
      { change (alter initialise (nextId w)
                  (heap (QueryManager.onEntityComponentChange (nextId w)
                           (Space.enter (nextId w) s es (Entity.new w).2)))
                = alter initialise (nextId w)
                    (heap (Space.enter (nextId w) s es (Entity.new w).2))).
        by rewrite onEntityComponentChange_heap. }
      rewrite !lookup_alter_eq, lookup_insert_eq. simpl. by eauto. }
  split.
  - unfold_m. rewrite Ho. unfold values. by rewrite Hc, map_to_list_empty.
  - intros clazz.
    rewrite (find_spec _ _ _ _ Ho), (has_spec _ _ _ _ Ho), (get_spec _ _ _ _ Ho).
    unfold componentAt. rewrite Hc, Hid.
    by destruct (ComponentRegistry.componentIndex clazz w').
Qed.

Lemma new_entity_has_no_component_witness :
  spaces demo !! 0 = Some {[0; 1]}
  /\ (Space.createEntity 0 demo).1 = inr 2
  /\ Entity.get 2 "Position" (Space.createEntity 0 demo).2
     = (inl (ComponentNotInEntity "Position" 2), (Space.createEntity 0 demo).2)
  /\ Entity.find 2 "Position" (Entity.new demo).2 = (inr None, (Entity.new demo).2).
Proof.
  assert (H : spaces demo !! 0 = Some {[0; 1]}) by (vm_compute; reflexivity).
  destruct (new_entity_has_no_component demo 0 _ H) as (Hret & Hall).
  destruct (Hall (Space.createEntity 0 demo).2 (or_intror eq_refl)) as (_ & Hc).
  destruct (Hall (Entity.new demo).2 (or_introl eq_refl)) as (_ & Hn).
  split; [exact H|]. split; [exact Hret|]. split.
  - apply (Hc "Position").
  - apply (Hn "Position").
Defined.
